(** * optimizedDiff: adaptive diff computation and HTML rendering

    A shallow embedding of [src/lib/utils/optimizedDiff.ts]: the
    [OptimizedDiffComputer] class ([computeDiff], [computeLineDiff],
    [computeStats], [optimizeDiffs], [getChangeIndices]) and the
    [renderDiffToHtml] function with its [escapeHtml] helper.

    Conventions of the embedding.
    - A JavaScript string is a [string]; [.length] is [String.length].
    - A [Diff] of diff-match-patch is a pair of an operation tag and a text.
    - JavaScript numbers that hold times (readings of [performance.now()],
      [maxComputationTimeMs], [Diff_Timeout]) are binary64 floats with the
      IEEE 754 operations, as in JavaScript; counters and lengths are
      [nat]; [maxChunks] and [highlightIndex] are integers.
    - The two readings of [performance.now()] that a call of [computeDiff]
      makes are explicit inputs.
    - The [diff_match_patch] instance held by the computer is external code:
      its two entry points are the fields of a record, and its mutable
      [Diff_Timeout] knob is explicit state. *)

From Stdlib Require Import String Ascii List Bool ZArith Lia Floats.
From Stdlib Require Import DecimalString Sorted.
From stdpp Require Import base strings gmap.

Set Warnings "-inexact-float".

Import ListNotations.
Local Open Scope string_scope.
Local Open Scope list_scope.

(** ** Data model *)

Inductive Op : Type := DIFF_DELETE | DIFF_INSERT | DIFF_EQUAL.

Definition Op_eqb (o1 o2 : Op) : bool :=
  match o1, o2 with
  | DIFF_DELETE, DIFF_DELETE | DIFF_INSERT, DIFF_INSERT | DIFF_EQUAL, DIFF_EQUAL => true
  | _, _ => false
  end.

Definition Diff : Type := (Op * string)%type.

Record DiffOptions : Type := mkDiffOptions {
  maxComputationTimeMs : option float;
  checkLines : option bool;
  lineMode : option bool;
  semanticCleanup : option bool
}.

Inductive Algorithm : Type := fast | accurate | line_based.

Record Stats : Type := mkStats {
  totalSize : nat;
  changeCount : nat;
  insertions : nat;
  deletions : nat
}.

Record DiffResult : Type := mkDiffResult {
  diffs : list Diff;
  hitTimeout : bool;
  computationTimeMs : float;
  algorithm : Algorithm;
  stats : Stats
}.

Definition SIZE_THRESHOLD_ACCURATE : nat := 1700.
Definition CHAR_THRESHOLD_ACCURATE : nat := 500.
Definition DEFAULT_TIMEOUT : float := 5000.

(** ** Strings *)

Definition newline : ascii := "010"%char.

(** [text.includes('\n')] *)
Fixpoint includes_newline (s : string) : bool :=
  match s with
  | EmptyString => false
  | String c rest => if Ascii.eqb c newline then true else includes_newline rest
  end.

(** [text.split('\n')]: never empty, the empty text gives one empty line. *)
Fixpoint split_newline (s : string) : list string :=
  match s with
  | EmptyString => [EmptyString]
  | String c rest =>
      if Ascii.eqb c newline then EmptyString :: split_newline rest
      else match split_newline rest with
           | [] => [String c EmptyString]
           | line :: lines => String c line :: lines
           end
  end.

(** [lines.join('\n')] *)
Definition join_newline (lines : list string) : string :=
  String.concat (String newline EmptyString) lines.

(** White space that [String.prototype.trim] strips, among the characters a
    [string] can hold. *)
Definition is_white_space (c : ascii) : bool :=
  match nat_of_ascii c with
  | 9 | 10 | 11 | 12 | 13 | 32 | 160 => true
  | _ => false
  end.

Fixpoint trimStart (s : string) : string :=
  match s with
  | EmptyString => EmptyString
  | String c rest => if is_white_space c then trimStart rest else s
  end.

Fixpoint trimEnd (s : string) : string :=
  match s with
  | EmptyString => EmptyString
  | String c rest =>
      match trimEnd rest with
      | EmptyString => if is_white_space c then EmptyString else String c EmptyString
      | rest' => String c rest'
      end
  end.

Definition trim (s : string) : string := trimEnd (trimStart s).

(** ** The diff-match-patch instance

    [diff_main] reads the instance's [Diff_Timeout] (seconds) and takes the
    two texts and the optional [opt_checklines] flag; [diff_cleanupSemantic]
    rewrites the array it is given, which is modelled by returning the new
    contents. [initial_Diff_Timeout] is the value the library's constructor
    leaves in the knob. *)

Record diff_match_patch : Type := mkDmp {
  diff_main : float -> string -> string -> option bool -> list Diff;
  diff_cleanupSemantic : list Diff -> list Diff;
  initial_Diff_Timeout : float
}.

(** The mutable part of an [OptimizedDiffComputer]: [this.dmp.Diff_Timeout]. *)
Record OptimizedDiffComputer : Type := mkComputer {
  Diff_Timeout : float
}.

Definition constructor (L : diff_match_patch) : OptimizedDiffComputer :=
  {| Diff_Timeout := initial_Diff_Timeout L |}.

(** ** Line hashing ([lineHash], [nextHash] and the [getLineHash] closure) *)

Record LineHashes : Type := mkLineHashes {
  lineHash : gmap string nat;
  nextHash : nat
}.

Definition getLineHash (h : LineHashes) (line : string) : nat * LineHashes :=
  let trimmed := trim line in
  match lineHash h !! trimmed with
  | Some hash => (hash, h)
  | None =>
      (nextHash h,
       {| lineHash := <[trimmed := nextHash h]> (lineHash h);
          nextHash := S (nextHash h) |})
  end.

(** [lines.map(l => getLineHash(l))], threading the map through. *)
Fixpoint mapLineHash (h : LineHashes) (lines : list string) : list nat * LineHashes :=
  match lines with
  | [] => ([], h)
  | l :: rest =>
      let '(x, h1) := getLineHash h l in
      let '(xs, h2) := mapLineHash h1 rest in
      (x :: xs, h2)
  end.

Section Computer.

Variable L : diff_match_patch.

Definition computeLinesDiffAccurate (this : OptimizedDiffComputer)
    (lines1 lines2 : list string) (hashes1 hashes2 : list nat) (deadline : float)
    : list Diff :=
  let text1 := join_newline lines1 in
  let text2 := join_newline lines2 in
  let charDiffs := diff_main L (Diff_Timeout this) text1 text2 None in
  charDiffs.

Definition computeLinesDiffFast (this : OptimizedDiffComputer)
    (lines1 lines2 : list string) (deadline : float) : list Diff :=
  let text1 := join_newline lines1 in
  let text2 := join_newline lines2 in
  diff_main L (Diff_Timeout this) text1 text2 (Some true).

Definition computeLineDiff (this : OptimizedDiffComputer)
    (text1 text2 : string) (deadline : float) : list Diff :=
  let lines1 := split_newline text1 in
  let lines2 := split_newline text2 in
  let totalLines := (length lines1 + length lines2)%nat in
  let h0 := {| lineHash := ∅; nextHash := 0 |} in
  let '(hashes1, h1) := mapLineHash h0 lines1 in
  let '(hashes2, _) := mapLineHash h1 lines2 in
  if (totalLines <? SIZE_THRESHOLD_ACCURATE)%nat
  then computeLinesDiffAccurate this lines1 lines2 hashes1 hashes2 deadline
  else computeLinesDiffFast this lines1 lines2 deadline.

(** One turn of the loop of [computeStats]. *)
Definition computeStats_step (acc : Stats) (d : Diff) : Stats :=
  let '(op, text) := d in
  let totalSize' := (totalSize acc + String.length text)%nat in
  match op with
  | DIFF_DELETE =>
      {| totalSize := totalSize';
         changeCount := S (changeCount acc);
         insertions := insertions acc;
         deletions := (deletions acc + String.length text)%nat |}
  | DIFF_INSERT =>
      {| totalSize := totalSize';
         changeCount := S (changeCount acc);
         insertions := (insertions acc + String.length text)%nat;
         deletions := deletions acc |}
  | DIFF_EQUAL =>
      {| totalSize := totalSize';
         changeCount := changeCount acc;
         insertions := insertions acc;
         deletions := deletions acc |}
  end.

Definition computeStats (ds : list Diff) : Stats :=
  fold_left computeStats_step ds
    {| totalSize := 0; changeCount := 0; insertions := 0; deletions := 0 |}.

(** [options.lineMode !== false], [options.semanticCleanup !== false] *)
Definition not_false (o : option bool) : bool :=
  match o with
  | Some false => false
  | _ => true
  end.

(** [computeDiff]. [now0] and [now1] are the readings of
    [performance.now()] on entry and when the elapsed time is taken. The
    computer after the call is returned with the result: the character
    branches write [Diff_Timeout]. *)
Definition computeDiff (this : OptimizedDiffComputer) (now0 now1 : float)
    (text1 text2 : string) (options : DiffOptions)
    : DiffResult * OptimizedDiffComputer :=
  let startTime := now0 in
  let timeout := default DEFAULT_TIMEOUT (maxComputationTimeMs options) in
  let deadline := (startTime + timeout)%float in
  if String.eqb text1 text2 then
    ({| diffs := [(DIFF_EQUAL, text1)];
        hitTimeout := false;
        computationTimeMs := (now1 - startTime)%float;
        algorithm := fast;
        stats := {| totalSize := String.length text1;
                    changeCount := 0;
                    insertions := 0;
                    deletions := 0 |} |}, this)
  else
    let shouldUseLineMode :=
      not_false (lineMode options)
      && (includes_newline text1 || includes_newline text2) in
    let '(diffs0, algorithm0, this') :=
      if shouldUseLineMode then
        (computeLineDiff this text1 text2 deadline, line_based, this)
      else
        let totalSize := (String.length text1 + String.length text2)%nat in
        let this1 := {| Diff_Timeout := (timeout / 1000)%float |} in
        if (totalSize <? CHAR_THRESHOLD_ACCURATE)%nat then
          (diff_main L (Diff_Timeout this1) text1 text2 None, accurate, this1)
        else
          (diff_main L (Diff_Timeout this1) text1 text2 (Some true), fast, this1) in
    let computationTime := (now1 - startTime)%float in
    let hitTimeout0 := (timeout * 0.95 <=? computationTime)%float in
    let diffs1 :=
      if negb hitTimeout0 && not_false (semanticCleanup options)
      then diff_cleanupSemantic L diffs0
      else diffs0 in
    let stats0 := computeStats diffs1 in
    ({| diffs := diffs1;
        hitTimeout := hitTimeout0;
        computationTimeMs := computationTime;
        algorithm := algorithm0;
        stats := stats0 |}, this').

End Computer.

(** ** [optimizeDiffs] and [getChangeIndices] *)

Definition is_equal (d : Diff) : bool := Op_eqb (fst d) DIFF_EQUAL.

(** The body of the loop of [optimizeDiffs] at index [i]: [result] after the
    turn. An index outside the array leaves [result] as it is (the loop never
    reaches one). *)
Definition optimizeDiffs_step (diffs : list Diff) (result : list Diff) (i : nat)
    : list Diff :=
  match diffs !! i with
  | None => result
  | Some curr =>
      if is_equal curr && (String.length (snd curr) <? 3)%nat
         && (0 <? i)%nat && (Z.of_nat i <? Z.of_nat (length diffs) - 1)%Z
      then
        match diffs !! (i - 1)%nat, diffs !! (i + 1)%nat with
        | Some prev, Some next =>
            if negb (is_equal prev) && negb (is_equal next)
            then result
            else result ++ [curr]
        | _, _ => result ++ [curr]
        end
      else result ++ [curr]
  end.

Definition optimizeDiffs (diffs : list Diff) : list Diff :=
  fold_left (optimizeDiffs_step diffs) (seq 0 (length diffs)) [].

(** One turn of the loop of [getChangeIndices]. *)
Definition getChangeIndices_step (diffs : list Diff) (indices : list nat) (i : nat)
    : list nat :=
  match diffs !! i with
  | Some d => if is_equal d then indices else indices ++ [i]
  | None => indices
  end.

Definition getChangeIndices (diffs : list Diff) : list nat :=
  fold_left (getChangeIndices_step diffs) (seq 0 (length diffs)) [].

(** ** Rendering *)

Record RenderOptions : Type := mkRenderOptions {
  maxChunks : option Z;
  highlightIndex : option Z
}.

Module RenderedDiff.
Record t : Type := mk {
  leftHtml : string;
  rightHtml : string;
  changeCount : nat;
  truncated : bool
}.
End RenderedDiff.

(** [text.replace(/c/g, by)] for a one-character pattern. *)
Fixpoint replace_all (c : ascii) (by_ : string) (text : string) : string :=
  match text with
  | EmptyString => EmptyString
  | String x rest =>
      if Ascii.eqb x c then by_ +:+ replace_all c by_ rest
      else String x (replace_all c by_ rest)
  end.

Definition escapeHtml (text : string) : string :=
  replace_all newline "<br>"
    (replace_all ">"%char "&gt;"
       (replace_all "<"%char "&lt;"
          (replace_all "&"%char "&amp;" text))).

(** The double quote, and the decimal numeral a template literal prints for a
    counter. *)
Definition dquote : string := String "034"%char EmptyString.

Definition string_of_nat (n : nat) : string :=
  NilZero.string_of_uint (Nat.to_uint n).

Definition truncation_msg : string :=
  "<span class=" +:+ dquote +:+ "text-muted-foreground italic" +:+ dquote
  +:+ ">[... diff truncated for performance ...]</span>".

Definition ringClass (highlighted : bool) : string :=
  if highlighted then "ring-2 ring-blue-500 ring-offset-2" else "".

Definition delete_span (highlightIndex : Z) (actualDiffIndex : nat)
    (escapedText : string) : string :=
  let highlighted := (Z.of_nat actualDiffIndex =? highlightIndex)%Z in
  "<span class=" +:+ dquote
  +:+ "bg-red-200 dark:bg-red-900/50 text-red-900 dark:text-red-200 "
  +:+ ringClass highlighted +:+ dquote
  +:+ " data-diff-index=" +:+ dquote +:+ string_of_nat actualDiffIndex +:+ dquote
  +:+ ">" +:+ escapedText +:+ "</span>".

Definition insert_span (highlightIndex : Z) (actualDiffIndex : nat)
    (escapedText : string) : string :=
  let highlighted := (Z.of_nat actualDiffIndex =? highlightIndex)%Z in
  "<span class=" +:+ dquote
  +:+ "bg-green-200 dark:bg-green-900/50 text-green-900 dark:text-green-200 "
  +:+ ringClass highlighted +:+ dquote
  +:+ " data-diff-index=" +:+ dquote +:+ string_of_nat actualDiffIndex +:+ dquote
  +:+ ">" +:+ escapedText +:+ "</span>".

Definition equal_span (escapedText : string) : string :=
  "<span class=" +:+ dquote +:+ "text-gray-700 dark:text-gray-300" +:+ dquote
  +:+ ">" +:+ escapedText +:+ "</span>".

(** The local variables of [renderDiffToHtml]. *)
Record RenderLoop : Type := mkRenderLoop {
  leftHtml : string;
  rightHtml : string;
  chunkCount : nat;
  actualDiffIndex : nat;
  truncated : bool
}.

(** The [for ... of] loop of [renderDiffToHtml]; the [break] ends the
    recursion. *)
Fixpoint render_loop (maxChunks highlightIndex : Z) (diffs : list Diff)
    (s : RenderLoop) : RenderLoop :=
  match diffs with
  | [] => s
  | (op, text) :: rest =>
      if (Z.of_nat (chunkCount s) >? maxChunks)%Z then
        {| leftHtml := leftHtml s +:+ truncation_msg;
           rightHtml := rightHtml s +:+ truncation_msg;
           chunkCount := S (chunkCount s);
           actualDiffIndex := actualDiffIndex s;
           truncated := true |}
      else
        let escapedText := escapeHtml text in
        render_loop maxChunks highlightIndex rest
          match op with
          | DIFF_DELETE =>
              {| leftHtml := leftHtml s
                   +:+ delete_span highlightIndex (actualDiffIndex s) escapedText;
                 rightHtml := rightHtml s;
                 chunkCount := S (chunkCount s);
                 actualDiffIndex := S (actualDiffIndex s);
                 truncated := truncated s |}
          | DIFF_INSERT =>
              {| leftHtml := leftHtml s;
                 rightHtml := rightHtml s
                   +:+ insert_span highlightIndex (actualDiffIndex s) escapedText;
                 chunkCount := S (chunkCount s);
                 actualDiffIndex := S (actualDiffIndex s);
                 truncated := truncated s |}
          | DIFF_EQUAL =>
              {| leftHtml := leftHtml s +:+ equal_span escapedText;
                 rightHtml := rightHtml s +:+ equal_span escapedText;
                 chunkCount := S (chunkCount s);
                 actualDiffIndex := actualDiffIndex s;
                 truncated := truncated s |}
          end
  end.

Definition renderDiffToHtml (diffs : list Diff) (options : RenderOptions)
    : RenderedDiff.t :=
  let maxChunks0 := default 5000%Z (maxChunks options) in
  let highlightIndex0 := default (-1)%Z (highlightIndex options) in
  let s := render_loop maxChunks0 highlightIndex0 diffs
             {| leftHtml := ""; rightHtml := ""; chunkCount := 0;
                actualDiffIndex := 0; truncated := false |} in
  {| RenderedDiff.leftHtml := leftHtml s;
     RenderedDiff.rightHtml := rightHtml s;
     RenderedDiff.changeCount := actualDiffIndex s;
     RenderedDiff.truncated := truncated s |}.

(** ** What an edit sequence stands for *)

(** The text an edit sequence starts from: its Equal and Delete spans in
    order ([diff_text1] in the library's vocabulary). *)
Fixpoint diff_text1 (ds : list Diff) : string :=
  match ds with
  | [] => ""
  | (DIFF_INSERT, _) :: rest => diff_text1 rest
  | (_, text) :: rest => text +:+ diff_text1 rest
  end.

(** The text an edit sequence arrives at: its Equal and Insert spans in
    order ([diff_text2]). *)
Fixpoint diff_text2 (ds : list Diff) : string :=
  match ds with
  | [] => ""
  | (DIFF_DELETE, _) :: rest => diff_text2 rest
  | (_, text) :: rest => text +:+ diff_text2 rest
  end.

(** No two neighbours carry one tag. *)
Fixpoint coalesced (ds : list Diff) : bool :=
  match ds with
  | [] => true
  | (op, _) :: rest =>
      match rest with
      | [] => true
      | (op', _) :: _ => negb (Op_eqb op op') && coalesced rest
      end
  end.

(** The number of non-Equal operations. *)
Definition count_changes (ds : list Diff) : nat :=
  length (List.filter (fun d => negb (is_equal d)) ds).

(** A text holds a line separator. *)
Definition contains_newline (s : string) : Prop :=
  In newline (list_ascii_of_string s).

(** Line mode is active: not disabled, and a line separator in either text. *)
Definition line_mode_active (options : DiffOptions) (text1 text2 : string) : Prop :=
  lineMode options <> Some false
  /\ (contains_newline text1 \/ contains_newline text2).

(** ** The contract of the diff library *)

(** Modelled from the spec: the diff-match-patch package ([diff_main],
    [diff_cleanupSemantic]) is a dependency whose code is not under [src/].
    The spec asks of the algorithms that the edit sequence they return, also
    a partial one after a timeout, reconstructs both texts, and of the
    cleanup that it does not change what each text reconstructs to. *)
Record dmp_reconstructs (L : diff_match_patch) : Prop := mkDmpReconstructs {
  diff_main_text1 : forall dt a b cl, diff_text1 (diff_main L dt a b cl) = a;
  diff_main_text2 : forall dt a b cl, diff_text2 (diff_main L dt a b cl) = b;
  cleanup_text1 : forall ds,
    diff_text1 (diff_cleanupSemantic L ds) = diff_text1 ds;
  cleanup_text2 : forall ds,
    diff_text2 (diff_cleanupSemantic L ds) = diff_text2 ds
}.

(** Modelled from the spec: the diff-match-patch package is not under
    [src/]. The spec has a time budget outside the sane range act as the
    minimum one; for the package's knob that is: a [Diff_Timeout] of 0 or
    less means no deadline, so [diff_main] answers under any such value
    what it answers under 0. *)
Definition dmp_no_deadline (L : diff_match_patch) : Prop :=
  forall (dt : float) (text1 text2 : string) (cl : option bool),
    (dt <=? 0)%float = true ->
    diff_main L dt text1 text2 cl = diff_main L 0%float text1 text2 cl.

(** ** A stand-in for the library

    A small diff that meets both contracts, to run [computeDiff] on concrete
    inputs: the common prefix is kept, the rest of the first text deleted
    and the rest of the second inserted; its cleanup changes nothing. *)

Fixpoint common_prefix (a b : string) : string * (string * string) :=
  match a, b with
  | String x a', String y b' =>
      if Ascii.eqb x y
      then let '(p, rests) := common_prefix a' b' in (String x p, rests)
      else ("", (a, b))
  | _, _ => ("", (a, b))
  end.

Definition span_unless_empty (op : Op) (text : string) : list Diff :=
  match text with
  | EmptyString => []
  | _ => [(op, text)]
  end.

Definition prefix_diff_main (_ : float) (text1 text2 : string) (_ : option bool)
    : list Diff :=
  let '(p, (rest1, rest2)) := common_prefix text1 text2 in
  span_unless_empty DIFF_EQUAL p
  ++ span_unless_empty DIFF_DELETE rest1
  ++ span_unless_empty DIFF_INSERT rest2.

Definition prefix_dmp : diff_match_patch :=
  {| diff_main := prefix_diff_main;
     diff_cleanupSemantic := fun ds => ds;
     initial_Diff_Timeout := 1 |}.

(** ** The library on one pair of texts

    Modelled from the spec: the diff-match-patch package is not under
    [src/]. These are the answers of its two entry points on the texts
    [sshessbtn] and [hesssab]: the minimal edit script of the bisection,
    and what the semantic cleanup described in the spec makes of it (the
    boundary shift turns [he], [+s], [ss] into [hess], [+s], and the
    overlap pass turns [-btn], [+ab] into [+a], [b], [-tn], after which
    nothing is merged again). On other texts the stand-in answers. *)

Definition recorded_raw : list Diff :=
  [(DIFF_DELETE, "ss"); (DIFF_EQUAL, "he"); (DIFF_INSERT, "s");
   (DIFF_EQUAL, "ss"); (DIFF_INSERT, "a"); (DIFF_EQUAL, "b");
   (DIFF_DELETE, "tn")].

Definition recorded_cleaned : list Diff :=
  [(DIFF_DELETE, "ss"); (DIFF_EQUAL, "hess"); (DIFF_INSERT, "s");
   (DIFF_INSERT, "a"); (DIFF_EQUAL, "b"); (DIFF_DELETE, "tn")].

Fixpoint diffs_eqb (ds1 ds2 : list Diff) : bool :=
  match ds1, ds2 with
  | [], [] => true
  | (o1, t1) :: r1, (o2, t2) :: r2 =>
      Op_eqb o1 o2 && String.eqb t1 t2 && diffs_eqb r1 r2
  | _, _ => false
  end.

Definition recorded_diff_main (dt : float) (text1 text2 : string)
    (cl : option bool) : list Diff :=
  if String.eqb text1 "sshessbtn" && String.eqb text2 "hesssab"
  then recorded_raw
  else prefix_diff_main dt text1 text2 cl.

Definition recorded_cleanupSemantic (ds : list Diff) : list Diff :=
  if diffs_eqb ds recorded_raw then recorded_cleaned else ds.

Definition recorded_dmp : diff_match_patch :=
  {| diff_main := recorded_diff_main;
     diff_cleanupSemantic := recorded_cleanupSemantic;
     initial_Diff_Timeout := 1 |}.

(** ** The rendered regions

    The markup [renderDiffToHtml] builds is a sequence of spans, one for each
    operation it reaches, and the truncation notice. [render_spans] lists
    them with the region index each changed span is given; [span_left] and
    [span_right] are the markup a span adds to either side. *)

Inductive Span : Type :=
  | SpanEqual (text : string)
  | SpanDelete (index : nat) (text : string)
  | SpanInsert (index : nat) (text : string)
  | SpanTruncated.

Fixpoint render_spans (maxChunks : Z) (diffs : list Diff)
    (chunkCount actualDiffIndex : nat) : list Span :=
  match diffs with
  | [] => []
  | (op, text) :: rest =>
      if (Z.of_nat chunkCount >? maxChunks)%Z then [SpanTruncated]
      else
        match op with
        | DIFF_DELETE =>
            SpanDelete actualDiffIndex text
            :: render_spans maxChunks rest (S chunkCount) (S actualDiffIndex)
        | DIFF_INSERT =>
            SpanInsert actualDiffIndex text
            :: render_spans maxChunks rest (S chunkCount) (S actualDiffIndex)
        | DIFF_EQUAL =>
            SpanEqual text
            :: render_spans maxChunks rest (S chunkCount) actualDiffIndex
        end
  end.

Definition span_left (highlightIndex : Z) (sp : Span) : string :=
  match sp with
  | SpanEqual text => equal_span (escapeHtml text)
  | SpanDelete i text => delete_span highlightIndex i (escapeHtml text)
  | SpanInsert _ _ => ""
  | SpanTruncated => truncation_msg
  end.

Definition span_right (highlightIndex : Z) (sp : Span) : string :=
  match sp with
  | SpanEqual text => equal_span (escapeHtml text)
  | SpanDelete _ _ => ""
  | SpanInsert i text => insert_span highlightIndex i (escapeHtml text)
  | SpanTruncated => truncation_msg
  end.

Definition concat_spans (f : Span -> string) (spans : list Span) : string :=
  fold_right (fun sp acc => f sp +:+ acc) "" spans.

(** The operation a span renders; the truncation notice renders none. *)
Definition span_op (sp : Span) : option Diff :=
  match sp with
  | SpanEqual text => Some (DIFF_EQUAL, text)
  | SpanDelete _ text => Some (DIFF_DELETE, text)
  | SpanInsert _ text => Some (DIFF_INSERT, text)
  | SpanTruncated => None
  end.

(** The region index a span carries. *)
Definition span_index (sp : Span) : option nat :=
  match sp with
  | SpanDelete i _ | SpanInsert i _ => Some i
  | _ => None
  end.

(** The operations [renderDiffToHtml] reaches before it stops. *)
Definition rendered_prefix (maxChunks : Z) (diffs : list Diff) : list Diff :=
  firstn (Z.to_nat (maxChunks + 1)) diffs.

(** ** Option records used in the statements *)

(** The options with the semantic cleanup switched off. *)
Definition without_cleanup (options : DiffOptions) : DiffOptions :=
  {| maxComputationTimeMs := maxComputationTimeMs options;
     checkLines := checkLines options;
     lineMode := lineMode options;
     semanticCleanup := Some false |}.

(** The options that set only the time budget. *)
Definition with_timeout (t : float) : DiffOptions :=
  {| maxComputationTimeMs := Some t;
     checkLines := None;
     lineMode := None;
     semanticCleanup := None |}.

(** The budget a call runs under: [options.maxComputationTimeMs ??
    DEFAULT_TIMEOUT]. *)
Definition budget (options : DiffOptions) : float :=
  default DEFAULT_TIMEOUT (maxComputationTimeMs options).


(** One text occurs in another. *)
Definition occurs_in (part whole : string) : Prop :=
  exists pre post : string, whole = pre +:+ part +:+ post.

(** The attribute that [scrollToDiff] selects on,
    [data-diff-index="index"], as the markup spells it. *)
Definition diff_index_attribute (index : nat) : string :=
  "data-diff-index=" +:+ dquote +:+ string_of_nat index +:+ dquote.

(** A region with the given index is in the markup: one of the spans is a
    Delete or Insert span with that index, and its element stands in the
    left or right markup between the markup of the spans before it and of
    those after it. *)
Definition region_in_markup (spans : list Span) (highlightIndex : Z)
    (index : nat) (rendered : RenderedDiff.t) : Prop :=
  (exists (before after : list Span) (text : string),
     spans = before ++ SpanDelete index text :: after
     /\ RenderedDiff.leftHtml rendered
        = concat_spans (span_left highlightIndex) before
          +:+ delete_span highlightIndex index (escapeHtml text)
          +:+ concat_spans (span_left highlightIndex) after)
  \/ (exists (before after : list Span) (text : string),
        spans = before ++ SpanInsert index text :: after
        /\ RenderedDiff.rightHtml rendered
           = concat_spans (span_right highlightIndex) before
             +:+ insert_span highlightIndex index (escapeHtml text)
             +:+ concat_spans (span_right highlightIndex) after).


(** ** Navigation between changes (the pages that show a diff)

    The state of the page that the navigation reads and writes: the diff
    result, if one was computed, and the cursor. [renderedDiff] and
    [diffChunkCount] are the page's derived values; a call of
    [scrollToDiff] is returned as the index it is asked to scroll to. *)

Record Page : Type := mkPage {
  diffResult : option DiffResult;
  currentDiffIndex : Z
}.

Definition renderedDiff (p : Page) : RenderedDiff.t :=
  match diffResult p with
  | None =>
      {| RenderedDiff.leftHtml := "";
         RenderedDiff.rightHtml := "";
         RenderedDiff.changeCount := 0;
         RenderedDiff.truncated := false |}
  | Some r =>
      let rendered :=
        renderDiffToHtml (diffs r)
          {| maxChunks := Some 5000%Z;
             highlightIndex := Some (currentDiffIndex p) |} in
      rendered
  end.

Definition diffChunkCount (p : Page) : Z :=
  Z.of_nat (RenderedDiff.changeCount (renderedDiff p)).

Definition goToNextDiff (p : Page) : Page * option Z :=
  if (currentDiffIndex p <? diffChunkCount p - 1)%Z then
    let p' := {| diffResult := diffResult p;
                 currentDiffIndex := (currentDiffIndex p + 1)%Z |} in
    (p', Some (currentDiffIndex p'))
  else (p, None).

Definition goToPreviousDiff (p : Page) : Page * option Z :=
  if (currentDiffIndex p >? 0)%Z then
    let p' := {| diffResult := diffResult p;
                 currentDiffIndex := (currentDiffIndex p - 1)%Z |} in
    (p', Some (currentDiffIndex p'))
  else (p, None).

(** What the hash table keeps: every id handed out is below [nextHash], and
    no id is given to two trimmed lines. *)
Definition LineHashes_ok (h : LineHashes) : Prop :=
  (forall (k : string) (v : nat), lineHash h !! k = Some v -> (v < nextHash h)%nat)
  /\ (forall (k1 k2 : string) (v : nat),
        lineHash h !! k1 = Some v -> lineHash h !! k2 = Some v -> k1 = k2).

(** ** The stored documents and the routes that read them

    The [diff_documents] table is a list of rows, in the order the database
    returns them. Dates are milliseconds since the epoch. A query that the
    database fails makes the handler's [catch] answer; whether each query
    goes through is an input of the handler. *)

Module DiffDocument.
Record t : Type := mk {
  id : string;
  shortId : string;
  textA : string;
  textB : string;
  textASize : Z;
  textBSize : Z;
  expiresAt : option Z;
  isPrivate : bool;
  accessToken : option string;
  createdAt : Z;
  viewCount : Z
}.
End DiffDocument.

(** The body of a successful answer of [GET /api/diff/[id]]. *)
Module DiffBody.
Record t : Type := mk {
  id : string;
  shortId : string;
  textA : string;
  textB : string;
  textASize : Z;
  textBSize : Z;
  createdAt : Z;
  expiresAt : option Z;
  viewCount : Z
}.
End DiffBody.

Inductive Response : Type :=
  | JsonDiff (body : DiffBody.t)
  | JsonError (status : Z) (error : string).

(** [a !== b] on values that are a string or [null]. *)
Definition strict_neq (a b : option string) : bool :=
  match a, b with
  | Some x, Some y => negb (String.eqb x y)
  | None, None => false
  | _, _ => true
  end.

(** [where(eq(schema.diffDocuments.shortId, id))] *)
Definition has_shortId (id : string) (d : DiffDocument.t) : bool :=
  String.eqb (DiffDocument.shortId d) id.

(** [expiresAt && expiresAt < now], also the [lt(expiresAt, now)] of the
    cleanup, which a row without a date does not meet. *)
Definition expired (now : Z) (d : DiffDocument.t) : bool :=
  match DiffDocument.expiresAt d with
  | Some e => (e <? now)%Z
  | None => false
  end.

(** [set({ viewCount: sql`view_count + 1` })] on one row. *)
Definition count_view (d : DiffDocument.t) : DiffDocument.t :=
  {| DiffDocument.id := DiffDocument.id d;
     DiffDocument.shortId := DiffDocument.shortId d;
     DiffDocument.textA := DiffDocument.textA d;
     DiffDocument.textB := DiffDocument.textB d;
     DiffDocument.textASize := DiffDocument.textASize d;
     DiffDocument.textBSize := DiffDocument.textBSize d;
     DiffDocument.expiresAt := DiffDocument.expiresAt d;
     DiffDocument.isPrivate := DiffDocument.isPrivate d;
     DiffDocument.accessToken := DiffDocument.accessToken d;
     DiffDocument.createdAt := DiffDocument.createdAt d;
     DiffDocument.viewCount := (DiffDocument.viewCount d + 1)%Z |}.

(** [GET /api/diff/[id]]: the answer and the table after the request.
    [select_ok] and [update_ok] say whether the two queries go through. *)
Definition GET (select_ok update_ok : bool) (table : list DiffDocument.t)
    (now : Z) (id : string) (token : option string)
    : Response * list DiffDocument.t :=
  if negb select_ok then (JsonError 500 "Failed to retrieve diff", table)
  else
    match List.find (has_shortId id) table with
    | None => (JsonError 404 "Diff not found", table)
    | Some document =>
        if expired now document then
          (JsonError 410 "Diff has expired", table)
        else if DiffDocument.isPrivate document
                && strict_neq (DiffDocument.accessToken document) token then
          (JsonError 403 "Access denied", table)
        else if negb update_ok then
          (JsonError 500 "Failed to retrieve diff", table)
        else
          (JsonDiff
             {| DiffBody.id := DiffDocument.id document;
                DiffBody.shortId := DiffDocument.shortId document;
                DiffBody.textA := DiffDocument.textA document;
                DiffBody.textB := DiffDocument.textB document;
                DiffBody.textASize := DiffDocument.textASize document;
                DiffBody.textBSize := DiffDocument.textBSize document;
                DiffBody.createdAt := DiffDocument.createdAt document;
                DiffBody.expiresAt := DiffDocument.expiresAt document;
                DiffBody.viewCount := (DiffDocument.viewCount document + 1)%Z |},
           map (fun d => if has_shortId id d then count_view d else d) table)
    end.

(** [POST /api/cleanup] when the query goes through: the number of rows
    deleted, which the answer reports, and the table after. *)
Definition cleanup (table : list DiffDocument.t) (now : Z)
    : nat * list DiffDocument.t :=
  (length (List.filter (expired now) table),
   List.filter (fun d => negb (expired now d)) table).

(** * Properties *)

(** ** Strings *)

Lemma split_newline_not_nil (s : string) : split_newline s <> [].
Proof.
  destruct s as [|c rest]; simpl; [discriminate|].
  destruct (Ascii.eqb c newline); [discriminate|].
  destruct (split_newline rest); discriminate.
Qed.

Lemma join_newline_cons (line : string) (lines : list string) :
  lines <> [] ->
  join_newline (line :: lines)
  = line +:+ String newline (join_newline lines).
Proof.
  destruct lines as [|l ls]; [congruence|]. reflexivity.
Qed.

(** Splitting on the separator and joining again gives the text back. *)
Lemma join_split_newline (s : string) : join_newline (split_newline s) = s.
Proof.
  induction s as [|c rest IH]; [reflexivity|].
  simpl. destruct (Ascii.eqb_spec c newline) as [->|Hc].
  - rewrite join_newline_cons by apply split_newline_not_nil.
    simpl. now rewrite IH.
  - pose proof (split_newline_not_nil rest) as Hne.
    destruct (split_newline rest) as [|line lines]; [congruence|].
    destruct lines as [|l ls].
    + unfold join_newline in *. simpl in *. now rewrite IH.
    + rewrite join_newline_cons by discriminate.
      rewrite join_newline_cons in IH by discriminate.
      change (String c line +:+ ?x) with (String c (line +:+ x)).
      now rewrite IH.
Qed.

Lemma includes_newline_spec (s : string) :
  includes_newline s = true <-> contains_newline s.
Proof.
  unfold contains_newline.
  induction s as [|c rest IH]; simpl.
  - split; [discriminate | tauto].
  - destruct (Ascii.eqb_spec c newline) as [->|Hc].
    + split; auto.
    + rewrite IH. split; [auto | intros [?|?]; [congruence | assumption]].
Qed.

Lemma not_false_spec (o : option bool) : not_false o = true <-> o <> Some false.
Proof.
  destruct o as [[|]|]; simpl; split; congruence.
Qed.

Lemma line_mode_active_spec (options : DiffOptions) (text1 text2 : string) :
  not_false (lineMode options)
  && (includes_newline text1 || includes_newline text2) = true
  <-> line_mode_active options text1 text2.
Proof.
  unfold line_mode_active.
  rewrite andb_true_iff, orb_true_iff, not_false_spec, !includes_newline_spec.
  reflexivity.
Qed.

(** ** Edit sequences *)

Lemma string_app_nil_l (s : string) : "" +:+ s = s.
Proof. reflexivity. Qed.

Lemma string_app_cons (c : ascii) (s1 s2 : string) :
  String c s1 +:+ s2 = String c (s1 +:+ s2).
Proof. reflexivity. Qed.

Lemma string_app_assoc (s1 s2 s3 : string) :
  (s1 +:+ s2) +:+ s3 = s1 +:+ (s2 +:+ s3).
Proof.
  induction s1 as [|c s1 IH]; [reflexivity|].
  rewrite !string_app_cons. now rewrite IH.
Qed.

Lemma string_app_empty_r (s : string) : s +:+ "" = s.
Proof.
  induction s as [|c s IH]; [reflexivity|].
  rewrite string_app_cons. now rewrite IH.
Qed.

Lemma diff_text1_app (ds1 ds2 : list Diff) :
  diff_text1 (ds1 ++ ds2) = diff_text1 ds1 +:+ diff_text1 ds2.
Proof.
  induction ds1 as [|[[] t] ds1 IH]; simpl; auto;
    rewrite IH; now rewrite string_app_assoc.
Qed.

Lemma diff_text2_app (ds1 ds2 : list Diff) :
  diff_text2 (ds1 ++ ds2) = diff_text2 ds1 +:+ diff_text2 ds2.
Proof.
  induction ds1 as [|[[] t] ds1 IH]; simpl; auto;
    rewrite IH; now rewrite string_app_assoc.
Qed.

(** ** The line path *)

(** The line path hands the library the two texts themselves: the hashes are
    computed and dropped, and the joined lines are the text that was split.
    The line count only chooses the [opt_checklines] flag. *)
Lemma computeLineDiff_call (L : diff_match_patch) (this : OptimizedDiffComputer)
    (text1 text2 : string) (deadline : float) :
  computeLineDiff L this text1 text2 deadline
  = diff_main L (Diff_Timeout this) text1 text2
      (if (length (split_newline text1) + length (split_newline text2)
           <? SIZE_THRESHOLD_ACCURATE)%nat
       then None else Some true).
Proof.
  unfold computeLineDiff.
  destruct (mapLineHash _ (split_newline text1)) as [hashes1 h1].
  destruct (mapLineHash h1 (split_newline text2)) as [hashes2 h2].
  unfold computeLinesDiffAccurate, computeLinesDiffFast.
  rewrite !join_split_newline.
  now destruct (_ <? _)%nat.
Qed.


(** ** [computeDiff] on distinct texts *)

(** The identity branch. *)
Lemma computeDiff_same (L : diff_match_patch) (this : OptimizedDiffComputer)
    (now0 now1 : float) (text : string) (options : DiffOptions) :
  computeDiff L this now0 now1 text text options
  = ({| diffs := [(DIFF_EQUAL, text)];
        hitTimeout := false;
        computationTimeMs := (now1 - now0)%float;
        algorithm := fast;
        stats := {| totalSize := String.length text;
                    changeCount := 0;
                    insertions := 0;
                    deletions := 0 |} |}, this).
Proof.
  unfold computeDiff. now rewrite String.eqb_refl.
Qed.

(** The whole of [computeDiff] once the identity test has failed. *)
Lemma computeDiff_distinct (L : diff_match_patch) (this : OptimizedDiffComputer)
    (now0 now1 : float) (text1 text2 : string) (options : DiffOptions) :
  text1 <> text2 ->
  computeDiff L this now0 now1 text1 text2 options
  = let line := not_false (lineMode options)
                && (includes_newline text1 || includes_newline text2) in
    let small := (String.length text1 + String.length text2
                  <? CHAR_THRESHOLD_ACCURATE)%nat in
    let raw :=
      if line
      then computeLineDiff L this text1 text2 (now0 + budget options)%float
      else diff_main L (budget options / 1000)%float text1 text2
             (if small then None else Some true) in
    let hit := (budget options * 0.95 <=? now1 - now0)%float in
    let ds := if negb hit && not_false (semanticCleanup options)
              then diff_cleanupSemantic L raw else raw in
    ({| diffs := ds;
        hitTimeout := hit;
        computationTimeMs := (now1 - now0)%float;
        algorithm := if line then line_based
                     else if small then accurate else fast;
        stats := computeStats ds |},
     if line then this else {| Diff_Timeout := (budget options / 1000)%float |}).
Proof.
  intros Hne. apply String.eqb_neq in Hne.
  unfold computeDiff, budget. rewrite Hne.
  destruct (not_false (lineMode options)
            && (includes_newline text1 || includes_newline text2));
    [reflexivity|].
  cbv zeta.
  destruct (String.length text1 + String.length text2
            <? CHAR_THRESHOLD_ACCURATE)%nat; reflexivity.
Qed.


(** ** The stand-in libraries meet the contracts *)

Lemma common_prefix_spec (a b : string) :
  a = fst (common_prefix a b) +:+ fst (snd (common_prefix a b))
  /\ b = fst (common_prefix a b) +:+ snd (snd (common_prefix a b)).
Proof.
  revert b. induction a as [|x a IH]; intros [|y b]; simpl; auto.
  destruct (Ascii.eqb_spec x y) as [->|Hxy]; simpl; auto.
  destruct (IH b) as [Ha Hb].
  destruct (common_prefix a b) as [p [ra rb]]; simpl in *.
  rewrite !string_app_cons. split; congruence.
Qed.

Lemma diff_text1_span_unless_empty (op : Op) (text : string) :
  diff_text1 (span_unless_empty op text)
  = match op with DIFF_INSERT => "" | _ => text end.
Proof.
  destruct text as [|c text]; destruct op; simpl;
    rewrite ?string_app_empty_r; reflexivity.
Qed.

Lemma diff_text2_span_unless_empty (op : Op) (text : string) :
  diff_text2 (span_unless_empty op text)
  = match op with DIFF_DELETE => "" | _ => text end.
Proof.
  destruct text as [|c text]; destruct op; simpl;
    rewrite ?string_app_empty_r; reflexivity.
Qed.

Lemma prefix_dmp_reconstructs : dmp_reconstructs prefix_dmp.
Proof.
  split; try reflexivity; intros dt a b cl; simpl; unfold prefix_diff_main;
    destruct (common_prefix_spec a b) as [Ha Hb];
    destruct (common_prefix a b) as [p [ra rb]]; simpl in Ha, Hb.
  - rewrite !diff_text1_app, !diff_text1_span_unless_empty.
    now rewrite string_app_empty_r.
  - rewrite !diff_text2_app, !diff_text2_span_unless_empty.
    now rewrite string_app_nil_l.
Qed.


Lemma diffs_eqb_eq (ds1 ds2 : list Diff) :
  diffs_eqb ds1 ds2 = true -> ds1 = ds2.
Proof.
  revert ds2. induction ds1 as [|[o1 t1] ds1 IH]; intros [|[o2 t2] ds2];
    simpl; try discriminate; [reflexivity|].
  rewrite !andb_true_iff. intros [[Ho Ht] Hr].
  apply String.eqb_eq in Ht. apply IH in Hr.
  destruct o1, o2; try discriminate Ho; congruence.
Qed.

(** The recorded library meets the reconstruction contract and ignores the
    knob. *)
Lemma recorded_dmp_reconstructs : dmp_reconstructs recorded_dmp.
Proof.
  destruct prefix_dmp_reconstructs as [P1 P2 _ _].
  split; simpl.
  - intros dt a b cl. unfold recorded_diff_main.
    destruct (String.eqb_spec a "sshessbtn") as [->|_];
      [destruct (String.eqb_spec b "hesssab") as [->|_]|];
      simpl; [reflexivity | apply P1 | apply P1].
  - intros dt a b cl. unfold recorded_diff_main.
    destruct (String.eqb_spec a "sshessbtn") as [->|_];
      [destruct (String.eqb_spec b "hesssab") as [->|_]|];
      simpl; [reflexivity | apply P2 | apply P2].
  - intros ds. unfold recorded_cleanupSemantic.
    destruct (diffs_eqb ds recorded_raw) eqn:E; [|reflexivity].
    apply diffs_eqb_eq in E. subst ds. reflexivity.
  - intros ds. unfold recorded_cleanupSemantic.
    destruct (diffs_eqb ds recorded_raw) eqn:E; [|reflexivity].
    apply diffs_eqb_eq in E. subst ds. reflexivity.
Qed.

Lemma recorded_dmp_no_deadline : dmp_no_deadline recorded_dmp.
Proof.
  intros dt text1 text2 cl _. reflexivity.
Qed.

(** ** The properties of [computeDiff] *)

(** C4. Identical inputs: for every text [a] and every options record,
    [computeDiff(a, a, options)] returns the single operation [Equal(a)],
    with [changeCount] 0, [hitTimeout] false and the algorithm tag [fast]
    (and leaves the computer as it was). *)
Theorem computeDiff_identical (L : diff_match_patch)
    (this : OptimizedDiffComputer) (now0 now1 : float) (a : string)
    (options : DiffOptions) :
  computeDiff L this now0 now1 a a options
  = ({| diffs := [(DIFF_EQUAL, a)];
        hitTimeout := false;
        computationTimeMs := (now1 - now0)%float;
        algorithm := fast;
        stats := {| totalSize := String.length a;
                    changeCount := 0;
                    insertions := 0;
                    deletions := 0 |} |}, this).
Proof.
  apply computeDiff_same.
Qed.

(** C1. Reconstruction: for every pair of texts and every options record
    the edit sequence [computeDiff] returns gives back the first text from
    its Equal and Delete spans and the second from its Equal and Insert
    spans, whatever the clock says, so also when [hitTimeout] is true. The
    diff library is held to its contract [dmp_reconstructs]. *)
Theorem computeDiff_reconstructs (L : diff_match_patch)
    (HL : dmp_reconstructs L) (this : OptimizedDiffComputer) (now0 now1 : float)
    (a b : string) (options : DiffOptions) :
  diff_text1 (diffs (fst (computeDiff L this now0 now1 a b options))) = a
  /\ diff_text2 (diffs (fst (computeDiff L this now0 now1 a b options))) = b.
Proof.
  destruct (String.eqb_spec a b) as [<-|Hne].
  - rewrite computeDiff_same. simpl.
    now rewrite string_app_empty_r.
  - rewrite computeDiff_distinct by assumption. cbv zeta. simpl fst. simpl diffs.
    rewrite computeLineDiff_call.
    destruct HL as [H1 H2 C1 C2].
    destruct (negb _ && _); rewrite ?C1, ?C2;
      destruct (not_false _ && _); auto.
Qed.

Lemma computeDiff_reconstructs_witness :
  hitTimeout (fst (computeDiff prefix_dmp (constructor prefix_dmp) 0 10
                     ("one" +:+ String newline "two")
                     ("one" +:+ String newline "three")
                     (with_timeout 10))) = true
  /\ diff_text1 (diffs (fst (computeDiff prefix_dmp (constructor prefix_dmp) 0 10
                               ("one" +:+ String newline "two")
                               ("one" +:+ String newline "three")
                               (with_timeout 10))))
     = "one" +:+ String newline "two"
  /\ diff_text2 (diffs (fst (computeDiff prefix_dmp (constructor prefix_dmp) 0 10
                               ("one" +:+ String newline "two")
                               ("one" +:+ String newline "three")
                               (with_timeout 10))))
     = "one" +:+ String newline "three".
Proof.
  split; [vm_compute; reflexivity|].
  apply (computeDiff_reconstructs prefix_dmp prefix_dmp_reconstructs).
Defined.

(** C9, as stated, fails: for the texts [sshessbtn] and [hesssab], with
    the cleanup applied, the sequence [computeDiff] returns is the
    library's cleaned one, which holds two Inserts side by side, [+s] and
    [+a]; both texts are still reconstructed. *)
Lemma computeDiff_adjacent_inserts :
  diffs (fst (computeDiff recorded_dmp (constructor recorded_dmp) 0 1
                "sshessbtn" "hesssab" (with_timeout 5000)))
  = [(DIFF_DELETE, "ss"); (DIFF_EQUAL, "hess"); (DIFF_INSERT, "s");
     (DIFF_INSERT, "a"); (DIFF_EQUAL, "b"); (DIFF_DELETE, "tn")]
  /\ coalesced
       (diffs (fst (computeDiff recorded_dmp (constructor recorded_dmp) 0 1
                      "sshessbtn" "hesssab" (with_timeout 5000)))) = false
  /\ hitTimeout
       (fst (computeDiff recorded_dmp (constructor recorded_dmp) 0 1
               "sshessbtn" "hesssab" (with_timeout 5000))) = false
  /\ diff_text1
       (diffs (fst (computeDiff recorded_dmp (constructor recorded_dmp) 0 1
                      "sshessbtn" "hesssab" (with_timeout 5000))))
     = "sshessbtn"
  /\ diff_text2
       (diffs (fst (computeDiff recorded_dmp (constructor recorded_dmp) 0 1
                      "sshessbtn" "hesssab" (with_timeout 5000))))
     = "hesssab".
Proof.
  repeat split; vm_compute; reflexivity.
Qed.

(** The recorded [diff_main] returns no two neighbours of one tag. *)
Lemma recorded_diff_main_coalesced (dt : float) (text1 text2 : string)
    (cl : option bool) :
  coalesced (recorded_diff_main dt text1 text2 cl) = true.
Proof.
  unfold recorded_diff_main.
  destruct (String.eqb text1 "sshessbtn" && String.eqb text2 "hesssab");
    [reflexivity|].
  unfold prefix_diff_main.
  destruct (common_prefix text1 text2) as [[|? ?] [[|? ?] [|? ?]]]; reflexivity.
Qed.

(** C9, amended. [computeDiff] merges nothing itself. On identical texts
    it returns one Equal operation, so no two neighbours share a tag. On
    distinct texts it returns the library's sequence as it is: that of
    [diff_main] when the cleanup is not applied ([hitTimeout] true or
    [semanticCleanup] false), and that of [diff_cleanupSemantic] on it
    otherwise. So whenever [diff_main] returns sequences without adjacent
    operations of one tag, so does [computeDiff] on identical texts and
    when the cleanup is not applied; when it is applied, what the cleanup
    leaves side by side is returned side by side. *)
Theorem computeDiff_coalesced_unless_cleaned (L : diff_match_patch)
    (this : OptimizedDiffComputer) (now0 now1 : float) (a b : string)
    (options : DiffOptions) :
  (a = b ->
     coalesced (diffs (fst (computeDiff L this now0 now1 a b options))) = true)
  /\ (a <> b ->
      exists (dt : float) (cl : option bool),
        diffs (fst (computeDiff L this now0 now1 a b options))
        = if negb (hitTimeout (fst (computeDiff L this now0 now1 a b options)))
             && not_false (semanticCleanup options)
          then diff_cleanupSemantic L (diff_main L dt a b cl)
          else diff_main L dt a b cl)
  /\ ((forall (dt : float) (text1 text2 : string) (cl : option bool),
         coalesced (diff_main L dt text1 text2 cl) = true) ->
      a = b
      \/ hitTimeout (fst (computeDiff L this now0 now1 a b options)) = true
      \/ semanticCleanup options = Some false ->
      coalesced (diffs (fst (computeDiff L this now0 now1 a b options))) = true).
Proof.
  destruct (String.eqb_spec a b) as [<-|Hne].
  - rewrite computeDiff_same. simpl.
    split; [reflexivity|]. split; [congruence | reflexivity].
  - rewrite computeDiff_distinct by assumption. cbv zeta.
    simpl fst. simpl diffs. simpl hitTimeout.
    rewrite computeLineDiff_call.
    split; [congruence|]. split.
    + intros _.
      destruct (not_false (lineMode options)
                && (includes_newline a || includes_newline b));
        eexists; eexists; reflexivity.
    + intros Hmain [Heq|[Hhit|Hsc]]; [congruence| |].
      * rewrite Hhit. simpl.
        destruct (not_false (lineMode options)
                  && (includes_newline a || includes_newline b));
          apply Hmain.
      * rewrite Hsc. simpl. rewrite andb_false_r.
        destruct (not_false (lineMode options)
                  && (includes_newline a || includes_newline b));
          apply Hmain.
Qed.

Lemma computeDiff_coalesced_unless_cleaned_witness :
  coalesced
    (diffs (fst (computeDiff recorded_dmp (constructor recorded_dmp) 0 1
                   "sshessbtn" "hesssab"
                   (without_cleanup (with_timeout 5000))))) = true.
Proof.
  apply (computeDiff_coalesced_unless_cleaned recorded_dmp).
  - exact recorded_diff_main_coalesced.
  - right. right. reflexivity.
Defined.



(** C10. On distinct texts the tag is [line_based] exactly when line mode
    is active, that is with [lineMode] not false and a newline in one of
    the texts. So without a newline in either text the character path is
    taken whatever [lineMode] says, also under [lineMode: true]: the tag is
    [accurate] or [fast] and never [line_based]. *)
Theorem computeDiff_no_newline_character_mode (L : diff_match_patch)
    (this : OptimizedDiffComputer) (now0 now1 : float) (a b : string)
    (options : DiffOptions) :
  a <> b ->
  (algorithm (fst (computeDiff L this now0 now1 a b options)) = line_based
   <-> lineMode options <> Some false
       /\ (contains_newline a \/ contains_newline b))
  /\ (~ contains_newline a -> ~ contains_newline b ->
      algorithm (fst (computeDiff L this now0 now1 a b options)) <> line_based
      /\ (algorithm (fst (computeDiff L this now0 now1 a b options)) = accurate
          \/ algorithm (fst (computeDiff L this now0 now1 a b options)) = fast)).
Proof.
  intros Hne.
  rewrite computeDiff_distinct by assumption. cbv zeta. simpl fst. simpl algorithm.
  pose proof (line_mode_active_spec options a b) as Hline.
  unfold line_mode_active in Hline.
  destruct (not_false (lineMode options)
            && (includes_newline a || includes_newline b)).
  - assert (Hon : lineMode options <> Some false
                  /\ (contains_newline a \/ contains_newline b))
      by (now apply Hline).
    split; [tauto|]. intros Ha Hb. exfalso. tauto.
  - assert (Hoff : ~ (lineMode options <> Some false
                      /\ (contains_newline a \/ contains_newline b)))
      by (intros H; apply Hline in H; discriminate).
    split.
    + split; [|tauto]. destruct (_ <? _)%nat; discriminate.
    + intros _ _. destruct (_ <? _)%nat; split; auto; discriminate.
Qed.

Lemma computeDiff_no_newline_character_mode_witness :
  algorithm (fst (computeDiff prefix_dmp (constructor prefix_dmp) 0 1
                    "hello world" "hello earth"
                    {| maxComputationTimeMs := Some 5000%float;
                       checkLines := None;
                       lineMode := Some true;
                       semanticCleanup := Some true |})) <> line_based.
Proof.
  apply (computeDiff_no_newline_character_mode prefix_dmp
           (constructor prefix_dmp) 0 1 "hello world" "hello earth").
  - discriminate.
  - intros H. apply includes_newline_spec in H. discriminate.
  - intros H. apply includes_newline_spec in H. discriminate.
Defined.



(** ** Out-of-range budgets *)













(** ** Rendering *)

Lemma truncation_test (m : Z) (c : nat) :
  (Z.of_nat c >? m)%Z = (Z.to_nat (m + 1) <=? c)%nat.
Proof.
  destruct (Z.gtb_spec (Z.of_nat c) m) as [H|H];
    symmetry; [apply Nat.leb_le | apply Nat.leb_gt]; lia.
Qed.

Lemma concat_spans_cons (f : Span -> string) (sp : Span) (spans : list Span) :
  concat_spans f (sp :: spans) = f sp +:+ concat_spans f spans.
Proof. reflexivity. Qed.

(** The markup the loop adds to the left side is the markup of its spans. *)
Lemma render_loop_leftHtml (m hl : Z) (ds : list Diff) (s : RenderLoop) :
  leftHtml (render_loop m hl ds s)
  = leftHtml s
    +:+ concat_spans (span_left hl)
          (render_spans m ds (chunkCount s) (actualDiffIndex s)).
Proof.
  revert s. induction ds as [|[op text] ds IH]; intros s.
  - simpl. now rewrite string_app_empty_r.
  - simpl. destruct (Z.of_nat (chunkCount s) >? m)%Z.
    + simpl. now rewrite string_app_empty_r.
    + destruct op; rewrite IH, concat_spans_cons; simpl leftHtml;
        simpl chunkCount; simpl actualDiffIndex; simpl span_left;
        rewrite ?string_app_assoc, ?string_app_nil_l; reflexivity.
Qed.

(** The same on the right side. *)
Lemma render_loop_rightHtml (m hl : Z) (ds : list Diff) (s : RenderLoop) :
  rightHtml (render_loop m hl ds s)
  = rightHtml s
    +:+ concat_spans (span_right hl)
          (render_spans m ds (chunkCount s) (actualDiffIndex s)).
Proof.
  revert s. induction ds as [|[op text] ds IH]; intros s.
  - simpl. now rewrite string_app_empty_r.
  - simpl. destruct (Z.of_nat (chunkCount s) >? m)%Z.
    + simpl. now rewrite string_app_empty_r.
    + destruct op; rewrite IH, concat_spans_cons; simpl rightHtml;
        simpl chunkCount; simpl actualDiffIndex; simpl span_right;
        rewrite ?string_app_assoc, ?string_app_nil_l; reflexivity.
Qed.

Lemma count_changes_cons (d : Diff) (ds : list Diff) :
  count_changes (d :: ds)
  = ((if is_equal d then 0 else 1) + count_changes ds)%nat.
Proof.
  unfold count_changes. simpl. now destruct (is_equal d).
Qed.

(** The counter after the loop: one more for each change among the
    operations the loop still reaches. *)
Lemma render_loop_actualDiffIndex (m hl : Z) (ds : list Diff) (s : RenderLoop) :
  actualDiffIndex (render_loop m hl ds s)
  = (actualDiffIndex s
     + count_changes (firstn (Z.to_nat (m + 1) - chunkCount s) ds))%nat.
Proof.
  revert s. induction ds as [|[op text] ds IH]; intros s.
  - simpl. rewrite firstn_nil. unfold count_changes. simpl. lia.
  - simpl render_loop. rewrite truncation_test.
    destruct (Nat.leb_spec (Z.to_nat (m + 1)) (chunkCount s)) as [Hle|Hgt].
    + replace (Z.to_nat (m + 1) - chunkCount s)%nat with 0%nat by lia.
      simpl. unfold count_changes. simpl. lia.
    + replace (Z.to_nat (m + 1) - chunkCount s)%nat
        with (S (Z.to_nat (m + 1) - S (chunkCount s)))%nat by lia.
      rewrite firstn_cons, count_changes_cons.
      destruct op; rewrite IH; simpl; lia.
Qed.

(** The loop stops short exactly when more operations are left than it
    still may reach. *)
Lemma render_loop_truncated (m hl : Z) (ds : list Diff) (s : RenderLoop) :
  truncated (render_loop m hl ds s)
  = truncated s || (Z.to_nat (m + 1) - chunkCount s <? length ds)%nat.
Proof.
  revert s. induction ds as [|[op text] ds IH]; intros s.
  - simpl. now rewrite orb_false_r.
  - simpl render_loop. rewrite truncation_test.
    destruct (Nat.leb_spec (Z.to_nat (m + 1)) (chunkCount s)) as [Hle|Hgt].
    + replace (Z.to_nat (m + 1) - chunkCount s)%nat with 0%nat by lia.
      simpl. now rewrite orb_true_r.
    + replace (Z.to_nat (m + 1) - chunkCount s)%nat
        with (S (Z.to_nat (m + 1) - S (chunkCount s)))%nat by lia.
      destruct op; rewrite IH; reflexivity.
Qed.

(** The spans render, one for one and in order, the operations reached. *)
Lemma render_spans_ops (m : Z) (ds : list Diff) (c k : nat) :
  omap span_op (render_spans m ds c k) = firstn (Z.to_nat (m + 1) - c) ds.
Proof.
  revert c k. induction ds as [|[op text] ds IH]; intros c k.
  - simpl. now rewrite firstn_nil.
  - simpl render_spans. rewrite truncation_test.
    destruct (Nat.leb_spec (Z.to_nat (m + 1)) c) as [Hle|Hgt].
    + replace (Z.to_nat (m + 1) - c)%nat with 0%nat by lia. reflexivity.
    + replace (Z.to_nat (m + 1) - c)%nat
        with (S (Z.to_nat (m + 1) - S c))%nat by lia.
      destruct op; simpl; now rewrite IH.
Qed.

(** The region indices of the spans, in order, count up by one from the
    counter's value on entry. *)
Lemma render_spans_indices (m : Z) (ds : list Diff) (c k : nat) :
  omap span_index (render_spans m ds c k)
  = seq k (count_changes (firstn (Z.to_nat (m + 1) - c) ds)).
Proof.
  revert c k. induction ds as [|[op text] ds IH]; intros c k.
  - simpl. now rewrite firstn_nil.
  - simpl render_spans. rewrite truncation_test.
    destruct (Nat.leb_spec (Z.to_nat (m + 1)) c) as [Hle|Hgt].
    + replace (Z.to_nat (m + 1) - c)%nat with 0%nat by lia. reflexivity.
    + replace (Z.to_nat (m + 1) - c)%nat
        with (S (Z.to_nat (m + 1) - S c))%nat by lia.
      rewrite firstn_cons, count_changes_cons.
      destruct op; simpl; now rewrite IH.
Qed.

(** The truncation law of [renderDiffToHtml]: with [m] the value of
    [maxChunks], the loop renders the first [m + 1] operations, and
    [truncated] is set exactly when the sequence is longer than that. *)
Lemma renderDiffToHtml_truncated (ds : list Diff) (options : RenderOptions) :
  RenderedDiff.truncated (renderDiffToHtml ds options)
  = (Z.to_nat (default 5000%Z (maxChunks options) + 1) <? length ds)%nat.
Proof.
  unfold renderDiffToHtml. simpl. rewrite render_loop_truncated. simpl.
  now rewrite Nat.sub_0_r.
Qed.

Lemma renderDiffToHtml_changeCount (ds : list Diff) (options : RenderOptions) :
  RenderedDiff.changeCount (renderDiffToHtml ds options)
  = count_changes (rendered_prefix (default 5000%Z (maxChunks options)) ds).
Proof.
  unfold renderDiffToHtml, rendered_prefix. simpl.
  rewrite render_loop_actualDiffIndex. simpl. now rewrite Nat.sub_0_r.
Qed.

(** A sequence of at most [maxChunks + 1] operations is rendered whole and
    without the notice. *)
Lemma renderDiffToHtml_whole (ds : list Diff) (options : RenderOptions) :
  (length ds <= Z.to_nat (default 5000%Z (maxChunks options) + 1))%nat ->
  RenderedDiff.truncated (renderDiffToHtml ds options) = false
  /\ RenderedDiff.changeCount (renderDiffToHtml ds options) = count_changes ds.
Proof.
  intros Hlen.
  rewrite renderDiffToHtml_truncated, renderDiffToHtml_changeCount.
  unfold rendered_prefix. rewrite firstn_all2 by assumption.
  split; [apply Nat.ltb_ge; assumption | reflexivity].
Qed.

(** A negative [maxChunks] is used as it is given, too: the first operation
    already finds the count above it, so nothing is rendered but the
    notice. *)
Lemma renderDiffToHtml_negative_maxChunks (d : Diff) (ds : list Diff)
    (m : Z) (hl : option Z) :
  (m < 0)%Z ->
  renderDiffToHtml (d :: ds) {| maxChunks := Some m; highlightIndex := hl |}
  = {| RenderedDiff.leftHtml := truncation_msg;
       RenderedDiff.rightHtml := truncation_msg;
       RenderedDiff.changeCount := 0;
       RenderedDiff.truncated := true |}.
Proof.
  intros Hm. destruct d as [op text].
  unfold renderDiffToHtml. simpl.
  change (Z.of_nat 0) with 0%Z.
  destruct (Z.gtb_spec 0 m) as [_|Hge]; [reflexivity | lia].
Qed.

(** The notice comes once, after the spans of the operations rendered, and
    only when operations are left over. *)
Lemma render_spans_notice (m : Z) (ds : list Diff) (c k : nat) :
  exists body : list Span,
    render_spans m ds c k
    = body ++ (if (Z.to_nat (m + 1) - c <? length ds)%nat
               then [SpanTruncated] else [])
    /\ Forall (fun sp => sp <> SpanTruncated) body.
Proof.
  revert c k. induction ds as [|[op text] ds IH]; intros c k.
  - exists []. split; [reflexivity | constructor].
  - simpl render_spans. rewrite truncation_test.
    destruct (Nat.leb_spec (Z.to_nat (m + 1)) c) as [Hle|Hgt].
    + exists []. replace (Z.to_nat (m + 1) - c)%nat with 0%nat by lia.
      split; [reflexivity | constructor].
    + replace (Z.to_nat (m + 1) - c)%nat
        with (S (Z.to_nat (m + 1) - S c))%nat by lia.
      change (S ?n <? length (?d :: ds))%nat with (n <? length ds)%nat.
      destruct op.
      * destruct (IH (S c) (S k)) as [body [-> Hbody]].
        exists (SpanDelete k text :: body).
        split; [reflexivity | constructor; [discriminate | assumption]].
      * destruct (IH (S c) (S k)) as [body [-> Hbody]].
        exists (SpanInsert k text :: body).
        split; [reflexivity | constructor; [discriminate | assumption]].
      * destruct (IH (S c) k) as [body [-> Hbody]].
        exists (SpanEqual text :: body).
        split; [reflexivity | constructor; [discriminate | assumption]].
Qed.

(** C6. Region indices: the markup of [renderDiffToHtml] is, on either
    side, the markup of the spans of [render_spans]; these spans render, one
    for one and in order, the operations reached before any truncation;
    the region indices they carry, Delete (left) and Insert (right)
    together in the order of the sequence, are 0, 1, 2, ... up to
    [changeCount - 1]: one counter, one step for each non-Equal operation;
    and [changeCount] is the number of non-Equal operations among those
    rendered. *)
Theorem renderDiffToHtml_region_indices (ds : list Diff)
    (options : RenderOptions) :
  RenderedDiff.leftHtml (renderDiffToHtml ds options)
  = concat_spans (span_left (default (-1)%Z (highlightIndex options)))
      (render_spans (default 5000%Z (maxChunks options)) ds 0 0)
  /\ RenderedDiff.rightHtml (renderDiffToHtml ds options)
     = concat_spans (span_right (default (-1)%Z (highlightIndex options)))
         (render_spans (default 5000%Z (maxChunks options)) ds 0 0)
  /\ omap span_op (render_spans (default 5000%Z (maxChunks options)) ds 0 0)
     = rendered_prefix (default 5000%Z (maxChunks options)) ds
  /\ omap span_index (render_spans (default 5000%Z (maxChunks options)) ds 0 0)
     = seq 0 (RenderedDiff.changeCount (renderDiffToHtml ds options))
  /\ RenderedDiff.changeCount (renderDiffToHtml ds options)
     = count_changes (rendered_prefix (default 5000%Z (maxChunks options)) ds).
Proof.
  rewrite renderDiffToHtml_changeCount.
  unfold renderDiffToHtml, rendered_prefix. simpl.
  rewrite render_loop_leftHtml, render_loop_rightHtml. simpl.
  rewrite !string_app_nil_l, render_spans_ops, render_spans_indices.
  now rewrite Nat.sub_0_r.
Qed.

(** C2, at the boundary. A sequence of [maxChunks + 1] operations with
    alternating tags is rendered whole: [truncated] stays false and
    [changeCount] is the full number of non-Equal operations. The test
    [chunkCount++ > maxChunks] compares the count before the increment, so
    the notice first comes with operation number [maxChunks + 2]. *)
Theorem renderDiffToHtml_boundary :
  length [(DIFF_DELETE, "a"); (DIFF_EQUAL, "x"); (DIFF_INSERT, "b")]
  = Z.to_nat (2 + 1)
  /\ RenderedDiff.truncated
       (renderDiffToHtml
          [(DIFF_DELETE, "a"); (DIFF_EQUAL, "x"); (DIFF_INSERT, "b")]
          {| maxChunks := Some 2%Z; highlightIndex := None |}) = false
  /\ RenderedDiff.changeCount
       (renderDiffToHtml
          [(DIFF_DELETE, "a"); (DIFF_EQUAL, "x"); (DIFF_INSERT, "b")]
          {| maxChunks := Some 2%Z; highlightIndex := None |}) = 2%nat
  /\ count_changes [(DIFF_DELETE, "a"); (DIFF_EQUAL, "x"); (DIFF_INSERT, "b")]
     = 2%nat
  /\ RenderedDiff.truncated
       (renderDiffToHtml
          [(DIFF_DELETE, "a"); (DIFF_EQUAL, "x"); (DIFF_INSERT, "b");
           (DIFF_EQUAL, "y")]
          {| maxChunks := Some 2%Z; highlightIndex := None |}) = true.
Proof.
  repeat split; vm_compute; reflexivity.
Qed.

(** ** [optimizeDiffs] *)

(** An Equal run of fewer than 3 characters between two changes is dropped,
    whatever its text. *)
Lemma optimizeDiffs_between_changes (prev next : Diff) (text : string) :
  is_equal prev = false ->
  is_equal next = false ->
  (String.length text < 3)%nat ->
  optimizeDiffs [prev; (DIFF_EQUAL, text); next] = [prev; next].
Proof.
  intros Hp Hn Hlen. apply Nat.ltb_lt in Hlen.
  set (ds := [prev; (DIFF_EQUAL, text); next]).
  assert (S0 : optimizeDiffs_step ds [] 0 = [prev])
    by (unfold optimizeDiffs_step; simpl; now rewrite Hp).
  assert (S1 : optimizeDiffs_step ds [prev] 1 = [prev])
    by (unfold optimizeDiffs_step; simpl; rewrite Hlen; simpl;
        now rewrite Hp, Hn).
  assert (S2 : optimizeDiffs_step ds [prev] 2 = [prev; next])
    by (unfold optimizeDiffs_step; simpl; now rewrite Hn).
  unfold optimizeDiffs. simpl. fold ds. now rewrite S0, S1, S2.
Qed.

(** C3, at a short Equal run between two changes. [optimizeDiffs] drops the
    run and its text with it: the two reconstructions of the result are not
    those of the sequence it was given. *)
Theorem optimizeDiffs_drops_text :
  optimizeDiffs [(DIFF_DELETE, "a"); (DIFF_EQUAL, "xy"); (DIFF_INSERT, "b")]
  = [(DIFF_DELETE, "a"); (DIFF_INSERT, "b")]
  /\ diff_text1 [(DIFF_DELETE, "a"); (DIFF_EQUAL, "xy"); (DIFF_INSERT, "b")]
     = "axy"
  /\ diff_text1
       (optimizeDiffs
          [(DIFF_DELETE, "a"); (DIFF_EQUAL, "xy"); (DIFF_INSERT, "b")])
     = "a"
  /\ diff_text2 [(DIFF_DELETE, "a"); (DIFF_EQUAL, "xy"); (DIFF_INSERT, "b")]
     = "xyb"
  /\ diff_text2
       (optimizeDiffs
          [(DIFF_DELETE, "a"); (DIFF_EQUAL, "xy"); (DIFF_INSERT, "b")])
     = "b".
Proof.
  repeat split; vm_compute; reflexivity.
Qed.

(** * Further properties of the code *)

(** ** [computeLineDiff] *)

(** X1. The line path is one call of the library on the two texts as they were
    given: splitting on the newline and joining again changes nothing, and
    the line hashes play no part. The combined number of lines only chooses
    the flag: none below 1700 lines, the line pre-pass from 1700 on. *)
Theorem computeLineDiff_is_diff_main (L : diff_match_patch)
    (this : OptimizedDiffComputer) (text1 text2 : string) (deadline : float) :
  join_newline (split_newline text1) = text1
  /\ join_newline (split_newline text2) = text2
  /\ computeLineDiff L this text1 text2 deadline
     = diff_main L (Diff_Timeout this) text1 text2
         (if (length (split_newline text1) + length (split_newline text2)
              <? 1700)%nat
          then None else Some true).
Proof.
  split; [apply join_split_newline|].
  split; [apply join_split_newline|].
  apply computeLineDiff_call.
Qed.

(** ** [computeStats] *)

Lemma string_length_app (s1 s2 : string) :
  String.length (s1 +:+ s2) = (String.length s1 + String.length s2)%nat.
Proof.
  induction s1 as [|c s1 IH]; [reflexivity|].
  rewrite string_app_cons. simpl. now rewrite IH.
Qed.

(** The loop of [computeStats] from any starting record. *)
Lemma computeStats_fold (ds : list Diff) (acc : Stats) :
  (totalSize (fold_left computeStats_step ds acc) + insertions acc
   = totalSize acc + String.length (diff_text1 ds)
     + insertions (fold_left computeStats_step ds acc))%nat
  /\ (totalSize (fold_left computeStats_step ds acc) + deletions acc
      = totalSize acc + String.length (diff_text2 ds)
        + deletions (fold_left computeStats_step ds acc))%nat
  /\ changeCount (fold_left computeStats_step ds acc)
     = (changeCount acc + count_changes ds)%nat.
Proof.
  revert acc. induction ds as [|[op text] ds IH]; intros acc.
  - simpl. unfold count_changes. simpl. lia.
  - simpl fold_left. destruct (IH (computeStats_step acc (op, text)))
      as [H1 [H2 H3]].
    rewrite count_changes_cons.
    destruct op; simpl in *; rewrite ?string_length_app; lia.
Qed.

(** X3. The statistics of an edit sequence: [totalSize] is the length of the
    first text plus the inserted characters, and also the length of the
    second text plus the deleted ones; [changeCount] is the number of
    non-Equal operations. *)
Theorem computeStats_sizes (ds : list Diff) :
  totalSize (computeStats ds)
  = (String.length (diff_text1 ds) + insertions (computeStats ds))%nat
  /\ totalSize (computeStats ds)
     = (String.length (diff_text2 ds) + deletions (computeStats ds))%nat
  /\ changeCount (computeStats ds) = count_changes ds.
Proof.
  unfold computeStats.
  destruct (computeStats_fold ds
              {| totalSize := 0; changeCount := 0;
                 insertions := 0; deletions := 0 |}) as [H1 [H2 H3]].
  simpl in *. lia.
Qed.

(** X4. Whatever the branch taken, the statistics [computeDiff] returns are
    those of the sequence it returns (the record written out on the
    identity branch is what [computeStats] gives for the one Equal
    operation): [changeCount] counts its non-Equal operations, and
    [totalSize] is the length of what it reconstructs as first text plus
    the insertions, or as second text plus the deletions. *)
Theorem computeDiff_stats_of_diffs (L : diff_match_patch)
    (this : OptimizedDiffComputer) (now0 now1 : float) (a b : string)
    (options : DiffOptions) :
  stats (fst (computeDiff L this now0 now1 a b options))
  = computeStats (diffs (fst (computeDiff L this now0 now1 a b options)))
  /\ changeCount (stats (fst (computeDiff L this now0 now1 a b options)))
     = count_changes (diffs (fst (computeDiff L this now0 now1 a b options)))
  /\ totalSize (stats (fst (computeDiff L this now0 now1 a b options)))
     = (String.length
          (diff_text1 (diffs (fst (computeDiff L this now0 now1 a b options))))
        + insertions (stats (fst (computeDiff L this now0 now1 a b options))))%nat
  /\ totalSize (stats (fst (computeDiff L this now0 now1 a b options)))
     = (String.length
          (diff_text2 (diffs (fst (computeDiff L this now0 now1 a b options))))
        + deletions (stats (fst (computeDiff L this now0 now1 a b options))))%nat.
Proof.
  assert (E : stats (fst (computeDiff L this now0 now1 a b options))
              = computeStats
                  (diffs (fst (computeDiff L this now0 now1 a b options)))).
  { destruct (String.eqb_spec a b) as [<-|Hne].
    - rewrite computeDiff_same. reflexivity.
    - rewrite computeDiff_distinct by assumption. reflexivity. }
  split; [exact E|]. rewrite E.
  destruct (computeStats_fold
              (diffs (fst (computeDiff L this now0 now1 a b options)))
              {| totalSize := 0; changeCount := 0;
                 insertions := 0; deletions := 0 |}) as [H1 [H2 H3]].
  unfold computeStats. simpl in H1, H2, H3. lia.
Qed.

(** ** [getChangeIndices] *)

Lemma getChangeIndices_fold (ds : list Diff) (idxs acc : list nat) :
  fold_left (getChangeIndices_step ds) idxs acc
  = acc ++ List.filter
             (fun i => match ds !! i with
                       | Some d => negb (is_equal d)
                       | None => false
                       end) idxs.
Proof.
  revert acc. induction idxs as [|i idxs IH]; intros acc.
  - simpl. now rewrite app_nil_r.
  - simpl. rewrite IH. unfold getChangeIndices_step.
    destruct (ds !! i) as [d|]; [|reflexivity].
    destruct (is_equal d); simpl; [reflexivity|].
    now rewrite <- app_assoc.
Qed.

Lemma filter_seq_sorted (p : nat -> bool) (k n : nat) :
  StronglySorted lt (List.filter p (seq k n)).
Proof.
  revert k. induction n as [|n IH]; intros k; simpl; [constructor|].
  destruct (p k); [|apply IH].
  constructor; [apply IH|].
  apply List.Forall_forall. intros i Hi.
  apply filter_In in Hi. destruct Hi as [Hi _].
  apply in_seq in Hi. lia.
Qed.

Lemma count_changes_positions (hd tl : list Diff) :
  length (List.filter
            (fun i => match (hd ++ tl) !! i with
                      | Some d => negb (is_equal d)
                      | None => false
                      end) (seq (length hd) (length tl)))
  = count_changes tl.
Proof.
  revert hd. induction tl as [|d tl IH]; intros hd; [reflexivity|].
  simpl seq. simpl List.filter. rewrite list_lookup_middle by reflexivity.
  rewrite count_changes_cons.
  specialize (IH (hd ++ [d])).
  rewrite <- app_assoc, length_app in IH. simpl in IH.
  rewrite Nat.add_1_r in IH.
  destruct (is_equal d); simpl; now rewrite IH.
Qed.

(** X5. [getChangeIndices] lists exactly the positions of the non-Equal
    operations, each once and in increasing order; there are as many as
    [computeStats] counts changes. *)
Theorem getChangeIndices_positions (ds : list Diff) :
  (forall i : nat,
     In i (getChangeIndices ds)
     <-> exists d : Diff, ds !! i = Some d /\ is_equal d = false)
  /\ StronglySorted lt (getChangeIndices ds)
  /\ length (getChangeIndices ds) = changeCount (computeStats ds).
Proof.
  unfold getChangeIndices. rewrite getChangeIndices_fold. simpl.
  split; [|split].
  - intros i. rewrite filter_In, in_seq. split.
    + intros [_ Hi]. destruct (ds !! i) as [d|]; [|discriminate].
      exists d. split; [reflexivity|]. now destruct (is_equal d).
    + intros [d [Hd Hne]]. split.
      * apply lookup_lt_Some in Hd. lia.
      * now rewrite Hd, Hne.
  - apply filter_seq_sorted.
  - destruct (computeStats_fold ds
                {| totalSize := 0; changeCount := 0;
                   insertions := 0; deletions := 0 |}) as [_ [_ Hc]].
    unfold computeStats. rewrite Hc. simpl.
    apply (count_changes_positions [] ds).
Qed.

(** ** [optimizeDiffs] in general *)

Lemma optimizeDiffs_step_acc (ds acc : list Diff) (i : nat) :
  optimizeDiffs_step ds acc i = acc ++ optimizeDiffs_step ds [] i.
Proof.
  unfold optimizeDiffs_step.
  destruct (ds !! i) as [curr|]; [|now rewrite app_nil_r].
  destruct (is_equal curr && (String.length (snd curr) <? 3)%nat
            && (0 <? i)%nat && (Z.of_nat i <? Z.of_nat (length ds) - 1)%Z);
    [|reflexivity].
  destruct (ds !! (i - 1)%nat) as [prev|]; [|reflexivity].
  destruct (ds !! (i + 1)%nat) as [next|]; [|reflexivity].
  destruct (negb (is_equal prev) && negb (is_equal next));
    [now rewrite app_nil_r | reflexivity].
Qed.

Lemma optimizeDiffs_fold (ds : list Diff) (idxs : list nat) (acc : list Diff) :
  fold_left (optimizeDiffs_step ds) idxs acc
  = acc ++ flat_map (optimizeDiffs_step ds []) idxs.
Proof.
  revert acc. induction idxs as [|i idxs IH]; intros acc.
  - simpl. now rewrite app_nil_r.
  - simpl. rewrite IH, (optimizeDiffs_step_acc ds acc i).
    now rewrite <- app_assoc.
Qed.

(** What one turn of the loop does with the operation at its index: it is
    pushed, or it is skipped, and then it is an Equal run of fewer than 3
    characters that is neither first nor last. *)
Lemma optimizeDiffs_step_cases (ds : list Diff) (i : nat) (d : Diff) :
  ds !! i = Some d ->
  optimizeDiffs_step ds [] i = [d]
  \/ (optimizeDiffs_step ds [] i = []
      /\ is_equal d = true
      /\ (String.length (snd d) < 3)%nat
      /\ (0 < i)%nat /\ (S i < length ds)%nat).
Proof.
  intros Hd. unfold optimizeDiffs_step. rewrite Hd.
  destruct (is_equal d) eqn:He; [|now left].
  destruct (Nat.ltb_spec (String.length (snd d)) 3) as [Hs|Hs]; [|now left].
  destruct (Nat.ltb_spec 0 i) as [Hi|Hi]; [|now left].
  destruct (Z.ltb_spec (Z.of_nat i) (Z.of_nat (length ds) - 1)) as [Hn|Hn];
    [|now left].
  simpl.
  destruct (ds !! (i - 1)%nat) as [prev|]; [|now left].
  destruct (ds !! (i + 1)%nat) as [next|]; [|now left].
  destruct (negb (is_equal prev) && negb (is_equal next)); [|now left].
  right. repeat split; auto; lia.
Qed.

(** A list rebuilt position by position, each position giving its element
    or nothing. *)
Lemma flat_map_positions {A : Type} (f : nat -> list A) (keep : A -> bool)
    (k : nat) (tl : list A) :
  (forall (i : nat) (d : A), tl !! i = Some d ->
     f (k + i)%nat = [d] \/ (f (k + i)%nat = [] /\ keep d = false)) ->
  sublist (flat_map f (seq k (length tl))) tl
  /\ List.filter keep (flat_map f (seq k (length tl))) = List.filter keep tl.
Proof.
  revert k. induction tl as [|d tl IH]; intros k H.
  - simpl. split; [constructor | reflexivity].
  - simpl length. simpl seq. simpl flat_map.
    destruct (IH (S k)) as [IH1 IH2].
    { intros i e He. replace (S k + i)%nat with (k + S i)%nat by lia.
      apply H. exact He. }
    destruct (H 0%nat d eq_refl) as [Hk|[Hk Hd]];
      rewrite Nat.add_0_r in Hk; rewrite Hk.
    + simpl. split; [now apply sublist_skip|]. now rewrite IH2.
    + simpl. split; [now apply sublist_cons|]. now rewrite Hd.
Qed.

Lemma flat_map_all_positions {A : Type} (f : nat -> list A) (k : nat)
    (tl : list A) :
  (forall (i : nat) (d : A), tl !! i = Some d -> f (k + i)%nat = [d]) ->
  flat_map f (seq k (length tl)) = tl.
Proof.
  revert k. induction tl as [|d tl IH]; intros k H; [reflexivity|].
  simpl length. simpl seq. simpl flat_map.
  rewrite (IH (S k)).
  - pose proof (H 0%nat d eq_refl) as Hk. rewrite Nat.add_0_r in Hk.
    now rewrite Hk.
  - intros i e He. replace (S k + i)%nat with (k + S i)%nat by lia.
    apply H. exact He.
Qed.

(** X6. [optimizeDiffs] only ever leaves operations out: the result is a
    subsequence of what it is given. It leaves out no change (the non-Equal
    operations of the result are those of the input, in order, so the
    change count of the statistics is the same) and no operation of 3
    characters or more. *)
Theorem optimizeDiffs_keeps_changes (ds : list Diff) :
  sublist (optimizeDiffs ds) ds
  /\ List.filter (fun d => negb (is_equal d)) (optimizeDiffs ds)
     = List.filter (fun d => negb (is_equal d)) ds
  /\ changeCount (computeStats (optimizeDiffs ds))
     = changeCount (computeStats ds)
  /\ List.filter (fun d => (3 <=? String.length (snd d))%nat) (optimizeDiffs ds)
     = List.filter (fun d => (3 <=? String.length (snd d))%nat) ds.
Proof.
  unfold optimizeDiffs. rewrite optimizeDiffs_fold. simpl app.
  assert (Hchg : forall (i : nat) (d : Diff), ds !! i = Some d ->
            optimizeDiffs_step ds [] (0 + i)%nat = [d]
            \/ (optimizeDiffs_step ds [] (0 + i)%nat = []
                /\ negb (is_equal d) = false)).
  { intros i d Hd. change (0 + i)%nat with i.
    destruct (optimizeDiffs_step_cases ds i d Hd) as [H|[H [He _]]];
      [now left | right]. split; [exact H|]. now rewrite He. }
  assert (Hlong : forall (i : nat) (d : Diff), ds !! i = Some d ->
            optimizeDiffs_step ds [] (0 + i)%nat = [d]
            \/ (optimizeDiffs_step ds [] (0 + i)%nat = []
                /\ (3 <=? String.length (snd d))%nat = false)).
  { intros i d Hd. change (0 + i)%nat with i.
    destruct (optimizeDiffs_step_cases ds i d Hd) as [H|[H [_ [Hs _]]]];
      [now left | right]. split; [exact H|]. apply Nat.leb_gt. exact Hs. }
  destruct (flat_map_positions _ _ 0 ds Hchg) as [Hsub Hf1].
  destruct (flat_map_positions _ _ 0 ds Hlong) as [_ Hf2].
  split; [exact Hsub|]. split; [exact Hf1|]. split; [|exact Hf2].
  destruct (computeStats_fold ds
              {| totalSize := 0; changeCount := 0;
                 insertions := 0; deletions := 0 |}) as [_ [_ Hc1]].
  destruct (computeStats_fold
              (flat_map (optimizeDiffs_step ds []) (seq 0 (length ds)))
              {| totalSize := 0; changeCount := 0;
                 insertions := 0; deletions := 0 |}) as [_ [_ Hc2]].
  unfold computeStats. rewrite Hc1, Hc2. unfold count_changes.
  now rewrite Hf1.
Qed.

(** X7. A sequence without an Equal run of fewer than 3 characters comes back
    from [optimizeDiffs] as it is; so does any sequence of at most two
    operations, since the first and the last are never skipped. *)
Theorem optimizeDiffs_unchanged (ds : list Diff) :
  (forall d : Diff, In d ds -> is_equal d = true ->
     (3 <= String.length (snd d))%nat)
  \/ (length ds <= 2)%nat ->
  optimizeDiffs ds = ds.
Proof.
  intros H. unfold optimizeDiffs. rewrite optimizeDiffs_fold. simpl app.
  apply flat_map_all_positions. intros i d Hd. change (0 + i)%nat with i.
  destruct (optimizeDiffs_step_cases ds i d Hd)
    as [Hk|[_ [He [Hs [Hi Hn]]]]]; [exact Hk|].
  exfalso. destruct H as [H|H].
  - assert (Hin : In d ds).
    { apply list_elem_of_In. eapply list_elem_of_lookup_2. exact Hd. }
    specialize (H d Hin He). lia.
  - lia.
Qed.

Lemma optimizeDiffs_unchanged_witness :
  optimizeDiffs [(DIFF_DELETE, "a"); (DIFF_EQUAL, "xyz"); (DIFF_INSERT, "b")]
  = [(DIFF_DELETE, "a"); (DIFF_EQUAL, "xyz"); (DIFF_INSERT, "b")].
Proof.
  apply (optimizeDiffs_unchanged
           [(DIFF_DELETE, "a"); (DIFF_EQUAL, "xyz"); (DIFF_INSERT, "b")]).
  left. intros d Hd He. simpl in Hd.
  destruct Hd as [<-|[<-|[<-|[]]]]; try discriminate He. simpl. lia.
Defined.

(** ** [escapeHtml] *)

Lemma replace_all_app (c : ascii) (by_ s1 s2 : string) :
  replace_all c by_ (s1 +:+ s2)
  = replace_all c by_ s1 +:+ replace_all c by_ s2.
Proof.
  induction s1 as [|x s1 IH]; [reflexivity|].
  rewrite string_app_cons. simpl. rewrite IH.
  destruct (Ascii.eqb x c);
    [now rewrite string_app_assoc | now rewrite string_app_cons].
Qed.

Lemma escapeHtml_app (s1 s2 : string) :
  escapeHtml (s1 +:+ s2) = escapeHtml s1 +:+ escapeHtml s2.
Proof.
  unfold escapeHtml. now rewrite !replace_all_app.
Qed.

Lemma escapeHtml_char (c : ascii) :
  escapeHtml (String c "")
  = if Ascii.eqb c "&"%char then "&amp;"
    else if Ascii.eqb c "<"%char then "&lt;"
    else if Ascii.eqb c ">"%char then "&gt;"
    else if Ascii.eqb c newline then "<br>"
    else String c "".
Proof.
  unfold escapeHtml. simpl.
  destruct (Ascii.eqb_spec c "&"%char) as [->|H1]; [reflexivity|].
  simpl. destruct (Ascii.eqb_spec c "<"%char) as [->|H2]; [reflexivity|].
  simpl. destruct (Ascii.eqb_spec c ">"%char) as [->|H3]; [reflexivity|].
  simpl. destruct (Ascii.eqb_spec c newline) as [->|H4]; reflexivity.
Qed.

(** X8. [escapeHtml] works character by character: the escape of a text is the
    escapes of its characters one after the other, and a character gives
    its entity ([&amp;], [&lt;], [&gt;]), the break [<br>] for a newline,
    or itself. What an earlier replacement wrote is not escaped again by a
    later one. *)
Theorem escapeHtml_by_character (c : ascii) (s1 s2 : string) :
  escapeHtml (s1 +:+ s2) = escapeHtml s1 +:+ escapeHtml s2
  /\ escapeHtml (String c s2)
     = (if Ascii.eqb c "&"%char then "&amp;"
        else if Ascii.eqb c "<"%char then "&lt;"
        else if Ascii.eqb c ">"%char then "&gt;"
        else if Ascii.eqb c newline then "<br>"
        else String c "") +:+ escapeHtml s2.
Proof.
  split; [apply escapeHtml_app|].
  change (String c s2) with (String c "" +:+ s2).
  now rewrite escapeHtml_app, escapeHtml_char.
Qed.

Lemma escapeHtml_cons (c : ascii) (s : string) :
  escapeHtml (String c s) = escapeHtml (String c "") +:+ escapeHtml s.
Proof.
  change (String c s) with (String c "" +:+ s). apply escapeHtml_app.
Qed.

Lemma includes_newline_app (s1 s2 : string) :
  includes_newline (s1 +:+ s2) = includes_newline s1 || includes_newline s2.
Proof.
  induction s1 as [|x s1 IH]; [reflexivity|].
  rewrite string_app_cons. simpl. rewrite IH.
  now destruct (Ascii.eqb x newline).
Qed.

(** X9. No newline is left in an escaped text: each one has become a [<br>]. *)
Theorem escapeHtml_no_newline (s : string) :
  includes_newline (escapeHtml s) = false.
Proof.
  induction s as [|c s IH]; [reflexivity|].
  rewrite escapeHtml_cons, includes_newline_app, IH, escapeHtml_char.
  destruct (Ascii.eqb_spec c "&"%char) as [->|H1]; [reflexivity|].
  destruct (Ascii.eqb_spec c "<"%char) as [->|H2]; [reflexivity|].
  destruct (Ascii.eqb_spec c ">"%char) as [->|H3]; [reflexivity|].
  destruct (Ascii.eqb_spec c newline) as [->|H4]; [reflexivity|].
  simpl. apply Ascii.eqb_neq in H4. now rewrite H4.
Qed.

(** The escapes of two characters never start alike unless the characters
    are the same. *)
Lemma escapeHtml_char_prefix (c1 c2 : ascii) (r1 r2 : string) :
  escapeHtml (String c1 "") +:+ r1 = escapeHtml (String c2 "") +:+ r2 ->
  c1 = c2 /\ r1 = r2.
Proof.
  rewrite !escapeHtml_char.
  destruct (Ascii.eqb_spec c1 "&"%char) as [->|A1];
  [|destruct (Ascii.eqb_spec c1 "<"%char) as [->|A2];
    [|destruct (Ascii.eqb_spec c1 ">"%char) as [->|A3];
      [|destruct (Ascii.eqb_spec c1 newline) as [->|A4]]]];
  (destruct (Ascii.eqb_spec c2 "&"%char) as [->|B1];
   [|destruct (Ascii.eqb_spec c2 "<"%char) as [->|B2];
     [|destruct (Ascii.eqb_spec c2 ">"%char) as [->|B3];
       [|destruct (Ascii.eqb_spec c2 newline) as [->|B4]]]]);
  rewrite ?string_app_cons, ?string_app_nil_l; intros H;
  try discriminate H; try (injection H; intros; subst; try congruence; auto).
Qed.

(** X10. Escaping loses nothing: two texts with the same escape are the same
    text. *)
Theorem escapeHtml_injective (s1 s2 : string) :
  escapeHtml s1 = escapeHtml s2 -> s1 = s2.
Proof.
  revert s2. induction s1 as [|c1 s1 IH]; intros [|c2 s2] H.
  - reflexivity.
  - exfalso. rewrite escapeHtml_cons, escapeHtml_char in H.
    change (escapeHtml "") with "" in H.
    destruct (Ascii.eqb c2 "&"%char); [discriminate H|].
    destruct (Ascii.eqb c2 "<"%char); [discriminate H|].
    destruct (Ascii.eqb c2 ">"%char); [discriminate H|].
    destruct (Ascii.eqb c2 newline); discriminate H.
  - exfalso. rewrite escapeHtml_cons, escapeHtml_char in H.
    change (escapeHtml "") with "" in H.
    destruct (Ascii.eqb c1 "&"%char); [discriminate H|].
    destruct (Ascii.eqb c1 "<"%char); [discriminate H|].
    destruct (Ascii.eqb c1 ">"%char); [discriminate H|].
    destruct (Ascii.eqb c1 newline); discriminate H.
  - rewrite (escapeHtml_cons c1), (escapeHtml_cons c2) in H.
    apply escapeHtml_char_prefix in H. destruct H as [-> H].
    f_equal. now apply IH.
Qed.

Lemma escapeHtml_injective_witness :
  "a<b" = "a<b".
Proof.
  apply (escapeHtml_injective "a<b" "a<b"). reflexivity.
Defined.

(** ** [renderDiffToHtml]: limits and highlight *)

(** X11. A sequence of at most [maxChunks] operations is never cut short, and
    one of [maxChunks + 2] or more always is. The regions counted are never
    more than the changes [computeStats] counts, and they are all of them
    when the rendering was not cut short. *)
Theorem renderDiffToHtml_limits (ds : list Diff) (options : RenderOptions) :
  ((Z.of_nat (length ds) <= default 5000 (maxChunks options))%Z ->
     RenderedDiff.truncated (renderDiffToHtml ds options) = false)
  /\ ((0 < length ds)%nat ->
      (default 5000 (maxChunks options) + 2 <= Z.of_nat (length ds))%Z ->
      RenderedDiff.truncated (renderDiffToHtml ds options) = true)
  /\ (RenderedDiff.changeCount (renderDiffToHtml ds options)
      <= changeCount (computeStats ds))%nat
  /\ (RenderedDiff.truncated (renderDiffToHtml ds options) = false ->
      RenderedDiff.changeCount (renderDiffToHtml ds options)
      = changeCount (computeStats ds)).
Proof.
  rewrite renderDiffToHtml_truncated, renderDiffToHtml_changeCount.
  destruct (computeStats_fold ds
              {| totalSize := 0; changeCount := 0;
                 insertions := 0; deletions := 0 |}) as [_ [_ Hc]].
  unfold computeStats. rewrite Hc. simpl. clear Hc.
  unfold rendered_prefix.
  set (n := Z.to_nat (default 5000%Z (maxChunks options) + 1)).
  split; [|split; [|split]].
  - intros H. apply Nat.ltb_ge. lia.
  - intros H0 H. apply Nat.ltb_lt. lia.
  - rewrite <- (firstn_skipn n ds) at 2. unfold count_changes.
    rewrite List.filter_app, length_app. lia.
  - intros H. apply Nat.ltb_ge in H. now rewrite firstn_all2 by assumption.
Qed.

(** X12. The number of regions and the truncation flag do not depend on which
    region is highlighted. *)
Theorem renderDiffToHtml_highlight_free (ds : list Diff) (m : option Z)
    (hl hl' : option Z) :
  RenderedDiff.changeCount
    (renderDiffToHtml ds {| maxChunks := m; highlightIndex := hl |})
  = RenderedDiff.changeCount
      (renderDiffToHtml ds {| maxChunks := m; highlightIndex := hl' |})
  /\ RenderedDiff.truncated
       (renderDiffToHtml ds {| maxChunks := m; highlightIndex := hl |})
     = RenderedDiff.truncated
         (renderDiffToHtml ds {| maxChunks := m; highlightIndex := hl' |}).
Proof.
  rewrite !renderDiffToHtml_changeCount, !renderDiffToHtml_truncated.
  split; reflexivity.
Qed.

Lemma concat_spans_ext (f g : Span -> string) (spans : list Span) :
  (forall sp : Span, In sp spans -> f sp = g sp) ->
  concat_spans f spans = concat_spans g spans.
Proof.
  induction spans as [|sp spans IH]; intros H; [reflexivity|].
  rewrite !concat_spans_cons, (H sp) by (now left).
  rewrite IH; [reflexivity|]. intros sp' Hin. apply H. now right.
Qed.

(** The region indices of the spans are below the counter's final value. *)
Lemma render_spans_index_bound (m : Z) (ds : list Diff) (sp : Span) (i : nat) :
  In sp (render_spans m ds 0 0) ->
  span_index sp = Some i ->
  (i < count_changes (rendered_prefix m ds))%nat.
Proof.
  intros Hin Hi.
  assert (Hmem : In i (omap span_index (render_spans m ds 0 0))).
  { apply list_elem_of_In. apply list_elem_of_omap.
    exists sp. split; [now apply list_elem_of_In | exact Hi]. }
  rewrite render_spans_indices, Nat.sub_0_r in Hmem.
  apply in_seq in Hmem. unfold rendered_prefix. lia.
Qed.

(** X13. A highlight index that names no rendered region, negative or not below
    [changeCount], leaves the rendering as it is without a highlight. *)
Theorem renderDiffToHtml_highlight_outside (ds : list Diff) (m : option Z)
    (hl : Z) :
  (hl < 0)%Z
  \/ (Z.of_nat (RenderedDiff.changeCount
                  (renderDiffToHtml ds
                     {| maxChunks := m; highlightIndex := None |})) <= hl)%Z ->
  renderDiffToHtml ds {| maxChunks := m; highlightIndex := Some hl |}
  = renderDiffToHtml ds {| maxChunks := m; highlightIndex := None |}.
Proof.
  rewrite renderDiffToHtml_changeCount. simpl maxChunks.
  intros Hout.
  assert (Hsp : forall sp : Span,
            In sp (render_spans (default 5000%Z m) ds 0 0) ->
            span_left hl sp = span_left (-1) sp
            /\ span_right hl sp = span_right (-1) sp).
  { intros sp Hin. destruct sp as [t|i t|i t|]; simpl; auto.
    - pose proof (render_spans_index_bound _ _ _ i Hin eq_refl) as Hi.
      split; [|reflexivity]. unfold delete_span.
      replace (Z.of_nat i =? hl)%Z with false by (symmetry; apply Z.eqb_neq; lia).
      replace (Z.of_nat i =? -1)%Z with false by (symmetry; apply Z.eqb_neq; lia).
      reflexivity.
    - pose proof (render_spans_index_bound _ _ _ i Hin eq_refl) as Hi.
      split; [reflexivity|]. unfold insert_span.
      replace (Z.of_nat i =? hl)%Z with false by (symmetry; apply Z.eqb_neq; lia).
      replace (Z.of_nat i =? -1)%Z with false by (symmetry; apply Z.eqb_neq; lia).
      reflexivity. }
  unfold renderDiffToHtml. simpl maxChunks. simpl highlightIndex.
  cbv zeta. f_equal.
  - rewrite !render_loop_leftHtml. simpl. f_equal.
    apply concat_spans_ext. intros sp Hin. now apply Hsp.
  - rewrite !render_loop_rightHtml. simpl. f_equal.
    apply concat_spans_ext. intros sp Hin. now apply Hsp.
  - now rewrite !render_loop_actualDiffIndex.
  - now rewrite !render_loop_truncated.
Qed.

Lemma renderDiffToHtml_highlight_outside_witness :
  renderDiffToHtml
    [(DIFF_DELETE, "a"); (DIFF_EQUAL, "x"); (DIFF_INSERT, "b")]
    {| maxChunks := None; highlightIndex := Some 2%Z |}
  = renderDiffToHtml
      [(DIFF_DELETE, "a"); (DIFF_EQUAL, "x"); (DIFF_INSERT, "b")]
      {| maxChunks := None; highlightIndex := None |}.
Proof.
  apply (renderDiffToHtml_highlight_outside
           [(DIFF_DELETE, "a"); (DIFF_EQUAL, "x"); (DIFF_INSERT, "b")]
           None 2%Z).
  right. vm_compute. discriminate.
Defined.

Lemma render_loop_no_changes (m hl : Z) (ds : list Diff) (s : RenderLoop) :
  count_changes ds = 0%nat ->
  leftHtml s = rightHtml s ->
  leftHtml (render_loop m hl ds s) = rightHtml (render_loop m hl ds s).
Proof.
  revert s. induction ds as [|[op text] ds IH]; intros s Hc Hs; [exact Hs|].
  rewrite count_changes_cons in Hc.
  simpl render_loop. destruct (Z.of_nat (chunkCount s) >? m)%Z.
  - simpl. now rewrite Hs.
  - destruct op; simpl in Hc; try discriminate Hc.
    apply IH; [exact Hc|]. simpl. now rewrite Hs.
Qed.

(** X14. An edit sequence without a change renders to the same markup on both
    sides, with no region. *)
Theorem renderDiffToHtml_no_changes (ds : list Diff) (options : RenderOptions) :
  changeCount (computeStats ds) = 0%nat ->
  RenderedDiff.leftHtml (renderDiffToHtml ds options)
  = RenderedDiff.rightHtml (renderDiffToHtml ds options)
  /\ RenderedDiff.changeCount (renderDiffToHtml ds options) = 0%nat.
Proof.
  destruct (computeStats_fold ds
              {| totalSize := 0; changeCount := 0;
                 insertions := 0; deletions := 0 |}) as [_ [_ Hc]].
  unfold computeStats. rewrite Hc.
  change (0 + count_changes ds)%nat with (count_changes ds). clear Hc.
  intros Hc.
  split.
  - unfold renderDiffToHtml. simpl.
    now apply render_loop_no_changes.
  - rewrite renderDiffToHtml_changeCount. unfold rendered_prefix.
    assert (Hle : (count_changes
                     (firstn (Z.to_nat (default 5000%Z (maxChunks options) + 1)) ds)
                   <= count_changes ds)%nat).
    { rewrite <- (firstn_skipn
                    (Z.to_nat (default 5000%Z (maxChunks options) + 1)) ds) at 2.
      unfold count_changes. rewrite List.filter_app, length_app. lia. }
    lia.
Qed.

Lemma renderDiffToHtml_no_changes_witness :
  RenderedDiff.leftHtml
    (renderDiffToHtml
       (diffs (fst (computeDiff prefix_dmp (constructor prefix_dmp) 0 1
                      "same text" "same text" (with_timeout 5000))))
       {| maxChunks := Some 5000%Z; highlightIndex := Some 0%Z |})
  = RenderedDiff.rightHtml
      (renderDiffToHtml
         (diffs (fst (computeDiff prefix_dmp (constructor prefix_dmp) 0 1
                        "same text" "same text" (with_timeout 5000))))
         {| maxChunks := Some 5000%Z; highlightIndex := Some 0%Z |})
  /\ RenderedDiff.changeCount
       (renderDiffToHtml
          (diffs (fst (computeDiff prefix_dmp (constructor prefix_dmp) 0 1
                         "same text" "same text" (with_timeout 5000))))
          {| maxChunks := Some 5000%Z; highlightIndex := Some 0%Z |})
     = 0%nat.
Proof.
  apply (renderDiffToHtml_no_changes
           (diffs (fst (computeDiff prefix_dmp (constructor prefix_dmp) 0 1
                          "same text" "same text" (with_timeout 5000))))).
  reflexivity.
Defined.

(** ** Navigation *)

(** The number of regions of a page does not depend on its cursor. *)
Lemma diffChunkCount_cursor (r : option DiffResult) (c c' : Z) :
  diffChunkCount {| diffResult := r; currentDiffIndex := c |}
  = diffChunkCount {| diffResult := r; currentDiffIndex := c' |}.
Proof.
  unfold diffChunkCount, renderedDiff. simpl.
  destruct r as [r|]; [|reflexivity].
  now rewrite !renderDiffToHtml_changeCount.
Qed.

Lemma goToNextDiff_cursor (p : Page) :
  currentDiffIndex (fst (goToNextDiff p))
  = (if (currentDiffIndex p <? diffChunkCount p - 1)%Z
     then currentDiffIndex p + 1 else currentDiffIndex p)%Z
  /\ diffResult (fst (goToNextDiff p)) = diffResult p
  /\ diffChunkCount (fst (goToNextDiff p)) = diffChunkCount p.
Proof.
  unfold goToNextDiff.
  destruct (currentDiffIndex p <? diffChunkCount p - 1)%Z; simpl; auto.
  repeat split. destruct p as [r c]. apply diffChunkCount_cursor.
Qed.

Lemma goToPreviousDiff_cursor (p : Page) :
  currentDiffIndex (fst (goToPreviousDiff p))
  = (if (currentDiffIndex p >? 0)%Z
     then currentDiffIndex p - 1 else currentDiffIndex p)%Z
  /\ diffResult (fst (goToPreviousDiff p)) = diffResult p
  /\ diffChunkCount (fst (goToPreviousDiff p)) = diffChunkCount p.
Proof.
  unfold goToPreviousDiff.
  destruct (currentDiffIndex p >? 0)%Z; simpl; auto.
  repeat split. destruct p as [r c]. apply diffChunkCount_cursor.
Qed.

Lemma diffChunkCount_regions (p : Page) (r : DiffResult) :
  diffResult p = Some r ->
  omap span_index (render_spans 5000 (diffs r) 0 0)
  = seq 0 (Z.to_nat (diffChunkCount p)).
Proof.
  intros Hr. unfold diffChunkCount, renderedDiff. rewrite Hr.
  rewrite Nat2Z.id, renderDiffToHtml_changeCount, render_spans_indices.
  now rewrite Nat.sub_0_r.
Qed.

Lemma diffChunkCount_none (p : Page) :
  diffResult p = None -> diffChunkCount p = 0%Z.
Proof.
  intros Hr. unfold diffChunkCount, renderedDiff. now rewrite Hr.
Qed.

Lemma concat_spans_app (f : Span -> string) (s1 s2 : list Span) :
  concat_spans f (s1 ++ s2) = concat_spans f s1 +:+ concat_spans f s2.
Proof.
  induction s1 as [|sp s1 IH]; [now rewrite string_app_nil_l|].
  rewrite <- app_comm_cons, !concat_spans_cons, IH.
  now rewrite string_app_assoc.
Qed.

(** The markup of a page is the markup of the spans of its diff, under the
    page's cursor as highlight. *)
Lemma renderedDiff_markup (p : Page) (r : DiffResult) :
  diffResult p = Some r ->
  RenderedDiff.leftHtml (renderedDiff p)
  = concat_spans (span_left (currentDiffIndex p))
      (render_spans 5000 (diffs r) 0 0)
  /\ RenderedDiff.rightHtml (renderedDiff p)
     = concat_spans (span_right (currentDiffIndex p))
         (render_spans 5000 (diffs r) 0 0).
Proof.
  intros Hr. unfold renderedDiff. rewrite Hr.
  unfold renderDiffToHtml. simpl.
  rewrite render_loop_leftHtml, render_loop_rightHtml. simpl.
  now rewrite !string_app_nil_l.
Qed.

(** An index carried by one of the spans is the index of a region in the
    markup of these spans. *)
Lemma region_of_index (spans : list Span) (hl : Z) (i : nat)
    (rendered : RenderedDiff.t) :
  In i (omap span_index spans) ->
  RenderedDiff.leftHtml rendered = concat_spans (span_left hl) spans ->
  RenderedDiff.rightHtml rendered = concat_spans (span_right hl) spans ->
  region_in_markup spans hl i rendered.
Proof.
  intros Hi Hl Hr.
  apply list_elem_of_In, list_elem_of_omap in Hi.
  destruct Hi as [sp [Hsp Hidx]].
  apply list_elem_of_In, in_split in Hsp.
  destruct Hsp as [before [after ->]].
  rewrite concat_spans_app, concat_spans_cons in Hl, Hr.
  destruct sp as [text|k text|k text|]; simpl in Hidx; try discriminate;
    injection Hidx as ->.
  - left. exists before, after, text. split; [reflexivity | exact Hl].
  - right. exists before, after, text. split; [reflexivity | exact Hr].
Qed.

(** The element of a region spells the attribute [scrollToDiff] selects on. *)
Lemma region_attribute (spans : list Span) (hl : Z) (i : nat)
    (rendered : RenderedDiff.t) :
  region_in_markup spans hl i rendered ->
  occurs_in (diff_index_attribute i) (RenderedDiff.leftHtml rendered)
  \/ occurs_in (diff_index_attribute i) (RenderedDiff.rightHtml rendered).
Proof.
  intros [[before [after [text [_ H]]]]|[before [after [text [_ H]]]]];
    [left | right]; rewrite H; unfold occurs_in.
  - exists (concat_spans (span_left hl) before
            +:+ "<span class=" +:+ dquote
            +:+ "bg-red-200 dark:bg-red-900/50 text-red-900 dark:text-red-200 "
            +:+ ringClass (Z.of_nat i =? hl)%Z +:+ dquote +:+ " "),
           (">" +:+ escapeHtml text +:+ "</span>"
            +:+ concat_spans (span_left hl) after).
    unfold delete_span, diff_index_attribute. cbv zeta.
    rewrite !string_app_assoc. reflexivity.
  - exists (concat_spans (span_right hl) before
            +:+ "<span class=" +:+ dquote
            +:+ "bg-green-200 dark:bg-green-900/50 text-green-900 dark:text-green-200 "
            +:+ ringClass (Z.of_nat i =? hl)%Z +:+ dquote +:+ " "),
           (">" +:+ escapeHtml text +:+ "</span>"
            +:+ concat_spans (span_right hl) after).
    unfold insert_span, diff_index_attribute. cbv zeta.
    rewrite !string_app_assoc. reflexivity.
Qed.

(** X16. Moving the cursor keeps the diff and the number of regions. A cursor
    that is on a region, or at 0 when there is none, is so again after
    either move. When a move asks for a scroll, it is to the new cursor,
    and a region with that index is in the markup of the page after the
    move: one of the spans of the diff carries the index, its element
    stands in [leftHtml] or [rightHtml] of the page's [renderedDiff], and
    that markup spells the attribute [scrollToDiff] selects on. *)
Theorem navigation_stays_on_regions (p : Page) :
  (0 <= currentDiffIndex p)%Z ->
  (currentDiffIndex p < diffChunkCount p)%Z \/ currentDiffIndex p = 0%Z ->
  (diffResult (fst (goToNextDiff p)) = diffResult p
   /\ diffChunkCount (fst (goToNextDiff p)) = diffChunkCount p
   /\ (0 <= currentDiffIndex (fst (goToNextDiff p)))%Z
   /\ ((currentDiffIndex (fst (goToNextDiff p)) < diffChunkCount p)%Z
       \/ currentDiffIndex (fst (goToNextDiff p)) = 0%Z)
   /\ (forall t : Z, snd (goToNextDiff p) = Some t ->
         t = currentDiffIndex (fst (goToNextDiff p))
         /\ exists r : DiffResult,
              diffResult p = Some r
              /\ In (Z.to_nat t)
                   (omap span_index (render_spans 5000 (diffs r) 0 0))
              /\ region_in_markup (render_spans 5000 (diffs r) 0 0)
                   t (Z.to_nat t) (renderedDiff (fst (goToNextDiff p)))
              /\ (occurs_in (diff_index_attribute (Z.to_nat t))
                     (RenderedDiff.leftHtml
                        (renderedDiff (fst (goToNextDiff p))))
                  \/ occurs_in (diff_index_attribute (Z.to_nat t))
                       (RenderedDiff.rightHtml
                          (renderedDiff (fst (goToNextDiff p)))))))
  /\ (diffResult (fst (goToPreviousDiff p)) = diffResult p
      /\ diffChunkCount (fst (goToPreviousDiff p)) = diffChunkCount p
      /\ (0 <= currentDiffIndex (fst (goToPreviousDiff p)))%Z
      /\ ((currentDiffIndex (fst (goToPreviousDiff p)) < diffChunkCount p)%Z
          \/ currentDiffIndex (fst (goToPreviousDiff p)) = 0%Z)
      /\ (forall t : Z, snd (goToPreviousDiff p) = Some t ->
            t = currentDiffIndex (fst (goToPreviousDiff p))
            /\ exists r : DiffResult,
                 diffResult p = Some r
                 /\ In (Z.to_nat t)
                      (omap span_index (render_spans 5000 (diffs r) 0 0))
                 /\ region_in_markup (render_spans 5000 (diffs r) 0 0)
                      t (Z.to_nat t) (renderedDiff (fst (goToPreviousDiff p)))
                 /\ (occurs_in (diff_index_attribute (Z.to_nat t))
                        (RenderedDiff.leftHtml
                           (renderedDiff (fst (goToPreviousDiff p))))
                     \/ occurs_in (diff_index_attribute (Z.to_nat t))
                          (RenderedDiff.rightHtml
                             (renderedDiff (fst (goToPreviousDiff p))))))).
Proof.
  intros H0 Hc.
  assert (Hreg : forall t : Z, (0 <= t < diffChunkCount p)%Z ->
            exists r : DiffResult,
              diffResult p = Some r
              /\ In (Z.to_nat t)
                   (omap span_index (render_spans 5000 (diffs r) 0 0))
              /\ region_in_markup (render_spans 5000 (diffs r) 0 0)
                   t (Z.to_nat t)
                   (renderedDiff {| diffResult := diffResult p;
                                    currentDiffIndex := t |})
              /\ (occurs_in (diff_index_attribute (Z.to_nat t))
                     (RenderedDiff.leftHtml
                        (renderedDiff {| diffResult := diffResult p;
                                         currentDiffIndex := t |}))
                  \/ occurs_in (diff_index_attribute (Z.to_nat t))
                       (RenderedDiff.rightHtml
                          (renderedDiff {| diffResult := diffResult p;
                                           currentDiffIndex := t |})))).
  { intros t Ht. destruct (diffResult p) as [r|] eqn:Hr.
    - exists r. split; [reflexivity|].
      assert (Hin : In (Z.to_nat t)
                      (omap span_index (render_spans 5000 (diffs r) 0 0))).
      { rewrite (diffChunkCount_regions p r Hr). apply in_seq. lia. }
      split; [exact Hin|].
      destruct (renderedDiff_markup
                  {| diffResult := Some r; currentDiffIndex := t |} r
                  eq_refl) as [Hl Hrt].
      pose proof (region_of_index _ t _ _ Hin Hl Hrt) as Hregion.
      split; [exact Hregion|].
      exact (region_attribute _ _ _ _ Hregion).
    - rewrite (diffChunkCount_none p Hr) in Ht. lia. }
  split.
  - destruct (goToNextDiff_cursor p) as [Hn [Hr Hk]].
    split; [exact Hr|]. split; [exact Hk|].
    unfold goToNextDiff in *.
    destruct (Z.ltb_spec (currentDiffIndex p) (diffChunkCount p - 1))
      as [Hlt|Hge]; simpl in *.
    + split; [lia|]. split; [left; lia|].
      intros t Ht. injection Ht as <-. split; [reflexivity|].
      apply Hreg. lia.
    + split; [lia|]. split; [exact Hc|]. intros t Ht. discriminate Ht.
  - destruct (goToPreviousDiff_cursor p) as [Hn [Hr Hk]].
    split; [exact Hr|]. split; [exact Hk|].
    unfold goToPreviousDiff in *.
    destruct (Z.gtb_spec (currentDiffIndex p) 0) as [Hgt|Hle]; simpl in *.
    + split; [lia|]. split; [left; lia|].
      intros t Ht. injection Ht as <-. split; [reflexivity|].
      apply Hreg. lia.
    + split; [lia|]. split; [exact Hc|]. intros t Ht. discriminate Ht.
Qed.

Lemma navigation_stays_on_regions_witness :
  snd (goToNextDiff
         {| diffResult :=
              Some (fst (computeDiff prefix_dmp (constructor prefix_dmp) 0 1
                           "hello world" "hello earth" (with_timeout 5000)));
            currentDiffIndex := 0 |}) = Some 1%Z
  /\ (occurs_in (diff_index_attribute 1)
        (RenderedDiff.leftHtml
           (renderedDiff
              (fst (goToNextDiff
                      {| diffResult :=
                           Some (fst (computeDiff prefix_dmp
                                        (constructor prefix_dmp) 0 1
                                        "hello world" "hello earth"
                                        (with_timeout 5000)));
                         currentDiffIndex := 0 |}))))
      \/ occurs_in (diff_index_attribute 1)
           (RenderedDiff.rightHtml
              (renderedDiff
                 (fst (goToNextDiff
                         {| diffResult :=
                              Some (fst (computeDiff prefix_dmp
                                           (constructor prefix_dmp) 0 1
                                           "hello world" "hello earth"
                                           (with_timeout 5000)));
                            currentDiffIndex := 0 |})))))
  /\ RenderedDiff.rightHtml
       (renderedDiff
          (fst (goToNextDiff
                  {| diffResult :=
                       Some (fst (computeDiff prefix_dmp
                                    (constructor prefix_dmp) 0 1
                                    "hello world" "hello earth"
                                    (with_timeout 5000)));
                     currentDiffIndex := 0 |})))
     = "<span class=" +:+ dquote +:+ "text-gray-700 dark:text-gray-300"
       +:+ dquote +:+ ">hello </span><span class=" +:+ dquote
       +:+ "bg-green-200 dark:bg-green-900/50 text-green-900 dark:text-green-200 ring-2 ring-blue-500 ring-offset-2"
       +:+ dquote +:+ " data-diff-index=" +:+ dquote +:+ "1" +:+ dquote
       +:+ ">earth</span>".
Proof.
  split; [vm_compute; reflexivity|].
  split; [|vm_compute; reflexivity].
  destruct (navigation_stays_on_regions
              {| diffResult :=
                   Some (fst (computeDiff prefix_dmp (constructor prefix_dmp)
                                0 1 "hello world" "hello earth"
                                (with_timeout 5000)));
                 currentDiffIndex := 0 |}) as [[_ [_ [_ [_ H]]]] _].
  - simpl. lia.
  - right. reflexivity.
  - destruct (H 1%Z eq_refl) as [_ [r [_ [_ [_ Hocc]]]]]. exact Hocc.
Defined.

Lemma goToNextDiff_iter (p : Page) (n : nat) :
  diffChunkCount (Nat.iter n (fun q => fst (goToNextDiff q)) p)
  = diffChunkCount p
  /\ currentDiffIndex (Nat.iter n (fun q => fst (goToNextDiff q)) p)
     = Z.max (currentDiffIndex p)
         (Z.min (currentDiffIndex p + Z.of_nat n) (diffChunkCount p - 1)).
Proof.
  induction n as [|n [IHk IHc]].
  - simpl. split; [reflexivity | lia].
  - rewrite Nat.iter_succ.
    destruct (goToNextDiff_cursor
                (Nat.iter n (fun q => fst (goToNextDiff q)) p))
      as [Hn [_ Hk]].
    split; [now rewrite Hk|].
    rewrite Hn, IHk, IHc.
    destruct (Z.ltb_spec
                (Z.max (currentDiffIndex p)
                   (Z.min (currentDiffIndex p + Z.of_nat n)
                      (diffChunkCount p - 1)))
                (diffChunkCount p - 1)); lia.
Qed.

Lemma goToPreviousDiff_iter (p : Page) (n : nat) :
  currentDiffIndex (Nat.iter n (fun q => fst (goToPreviousDiff q)) p)
  = Z.min (currentDiffIndex p) (Z.max (currentDiffIndex p - Z.of_nat n) 0).
Proof.
  induction n as [|n IH].
  - simpl. lia.
  - rewrite Nat.iter_succ.
    destruct (goToPreviousDiff_cursor
                (Nat.iter n (fun q => fst (goToPreviousDiff q)) p))
      as [Hn _].
    rewrite Hn, IH.
    destruct (Z.gtb_spec
                (Z.min (currentDiffIndex p)
                   (Z.max (currentDiffIndex p - Z.of_nat n) 0)) 0); lia.
Qed.

(** X17. The cursor is clamped at both ends, without wrap-around: [n] times
    "next" move it up by [n] but not past the last region, [n] times
    "previous" move it down by [n] but not below 0, and a cursor already
    beyond an end is left where it is. *)
Theorem navigation_clamps (p : Page) (n : nat) :
  currentDiffIndex (Nat.iter n (fun q => fst (goToNextDiff q)) p)
  = Z.max (currentDiffIndex p)
      (Z.min (currentDiffIndex p + Z.of_nat n) (diffChunkCount p - 1))
  /\ currentDiffIndex (Nat.iter n (fun q => fst (goToPreviousDiff q)) p)
     = Z.min (currentDiffIndex p) (Z.max (currentDiffIndex p - Z.of_nat n) 0).
Proof.
  split; [apply goToNextDiff_iter | apply goToPreviousDiff_iter].
Qed.

(** X18. "Previous" undoes "next" wherever "next" moved, and "next" undoes
    "previous" wherever "previous" moved and a region lies ahead. *)
Theorem navigation_round_trip (p : Page) :
  (forall t : Z, snd (goToNextDiff p) = Some t ->
     (0 <= currentDiffIndex p)%Z ->
     fst (goToPreviousDiff (fst (goToNextDiff p))) = p)
  /\ (forall t : Z, snd (goToPreviousDiff p) = Some t ->
      (currentDiffIndex p < diffChunkCount p)%Z ->
      fst (goToNextDiff (fst (goToPreviousDiff p))) = p).
Proof.
  destruct p as [r c]. split.
  - intros t Ht Hc. unfold goToNextDiff in *. simpl in *.
    destruct (c <? diffChunkCount {| diffResult := r; currentDiffIndex := c |} - 1)%Z;
      [|discriminate Ht].
    simpl. unfold goToPreviousDiff. simpl.
    destruct (Z.gtb_spec (c + 1) 0) as [_|Hle]; [|lia].
    simpl. f_equal. lia.
  - intros t Ht Hc. unfold goToPreviousDiff in *. simpl in *.
    destruct (Z.gtb_spec c 0) as [Hgt|Hle]; [|discriminate Ht].
    simpl. unfold goToNextDiff. simpl.
    rewrite (diffChunkCount_cursor r (c - 1) c).
    destruct (Z.ltb_spec (c - 1)
                (diffChunkCount {| diffResult := r; currentDiffIndex := c |} - 1))
      as [_|Hge]; [|lia].
    simpl. f_equal. lia.
Qed.

(** ** Line hashes *)

Lemma getLineHash_ok (h : LineHashes) (line : string) :
  LineHashes_ok h ->
  LineHashes_ok (snd (getLineHash h line))
  /\ lineHash (snd (getLineHash h line)) !! trim line
     = Some (fst (getLineHash h line))
  /\ (forall (k : string) (v : nat),
        lineHash h !! k = Some v ->
        lineHash (snd (getLineHash h line)) !! k = Some v).
Proof.
  unfold LineHashes_ok. intros [Hlt Hinj]. unfold getLineHash.
  destruct (lineHash h !! trim line) as [x|] eqn:Hx;
    cbn [fst snd lineHash nextHash].
  - repeat split; auto.
  - split; [split|split].
    + intros k v Hk. destruct (decide (k = trim line)) as [->|Hne].
      * rewrite lookup_insert_eq in Hk. injection Hk as <-. lia.
      * rewrite lookup_insert_ne in Hk by congruence.
        apply Hlt in Hk. lia.
    + intros k1 k2 v H1 H2.
      destruct (decide (k1 = trim line)) as [->|Hne1];
        destruct (decide (k2 = trim line)) as [->|Hne2]; auto.
      * rewrite lookup_insert_eq in H1. injection H1 as <-.
        rewrite lookup_insert_ne in H2 by congruence.
        apply Hlt in H2. lia.
      * rewrite lookup_insert_eq in H2. injection H2 as <-.
        rewrite lookup_insert_ne in H1 by congruence.
        apply Hlt in H1. lia.
      * rewrite lookup_insert_ne in H1 by congruence.
        rewrite lookup_insert_ne in H2 by congruence.
        eapply Hinj; eauto.
    + apply lookup_insert_eq.
    + intros k v Hk. rewrite lookup_insert_ne; [exact Hk|].
      intros <-. congruence.
Qed.

Lemma mapLineHash_ok (h : LineHashes) (lines : list string) :
  LineHashes_ok h ->
  LineHashes_ok (snd (mapLineHash h lines))
  /\ Forall2 (fun l x => lineHash (snd (mapLineHash h lines)) !! trim l = Some x)
       lines (fst (mapLineHash h lines))
  /\ (forall (k : string) (v : nat),
        lineHash h !! k = Some v ->
        lineHash (snd (mapLineHash h lines)) !! k = Some v).
Proof.
  revert h. induction lines as [|l lines IH]; intros h Hok.
  - simpl. repeat split; auto; apply Hok.
  - simpl. destruct (getLineHash_ok h l Hok) as [Hok1 [Hl Hext1]].
    destruct (getLineHash h l) as [x h1]. simpl in Hok1, Hl, Hext1.
    destruct (IH h1 Hok1) as [Hok2 [Hall Hext2]].
    destruct (mapLineHash h1 lines) as [xs h2]. simpl in *.
    split; [exact Hok2|]. split; [|auto].
    constructor; [apply Hext2; exact Hl | exact Hall].
Qed.

(** X2. The ids that [computeLineDiff] gives the lines of the two texts (one
    table, filled from the first text and then from the second) compare as
    the trimmed lines do: every line gets an id, and two lines, of one text
    or of both, have the same id exactly when they are equal up to leading
    and trailing white space. *)
Theorem line_hashes_compare_trimmed (lines1 lines2 : list string) :
  Forall2
    (fun l1 x1 =>
       Forall2 (fun l2 x2 => x1 = x2 <-> trim l1 = trim l2)
         (lines1 ++ lines2)
         (fst (mapLineHash {| lineHash := ∅; nextHash := 0 |} lines1)
          ++ fst (mapLineHash
                    (snd (mapLineHash {| lineHash := ∅; nextHash := 0 |} lines1))
                    lines2)))
    (lines1 ++ lines2)
    (fst (mapLineHash {| lineHash := ∅; nextHash := 0 |} lines1)
     ++ fst (mapLineHash
               (snd (mapLineHash {| lineHash := ∅; nextHash := 0 |} lines1))
               lines2)).
Proof.
  assert (Hok0 : LineHashes_ok {| lineHash := ∅; nextHash := 0 |}).
  { split; intros *; simpl; rewrite lookup_empty; discriminate. }
  destruct (mapLineHash_ok _ lines1 Hok0) as [Hok1 [Hall1 _]].
  destruct (mapLineHash_ok _ lines2 Hok1) as [Hok2 [Hall2 Hext]].
  set (h1 := snd (mapLineHash {| lineHash := ∅; nextHash := 0 |} lines1)) in *.
  set (h2 := snd (mapLineHash h1 lines2)) in *.
  assert (Hall : Forall2 (fun l x => lineHash h2 !! trim l = Some x)
                   (lines1 ++ lines2)
                   (fst (mapLineHash {| lineHash := ∅; nextHash := 0 |} lines1)
                    ++ fst (mapLineHash h1 lines2))).
  { apply Forall2_app; [|exact Hall2].
    eapply Forall2_impl; [exact Hall1|]. intros l x Hx. apply Hext, Hx. }
  eapply Forall2_impl; [exact Hall|]. intros l1 x1 H1. simpl in H1.
  eapply Forall2_impl; [exact Hall|]. intros l2 x2 H2. simpl in H2.
  split.
  - intros <-. destruct Hok2 as [_ Hinj].
    exact (Hinj (trim l1) (trim l2) x1 H1 H2).
  - intros E. simpl in H1. rewrite E in H1. congruence.
Qed.

(** ** Region indices and [getChangeIndices] *)

Lemma render_spans_lookup (m : Z) (tl : list Diff) (c k0 j : nat) (d : Diff) :
  tl !! j = Some d ->
  (Z.of_nat (c + j) <= m)%Z ->
  exists sp : Span,
    render_spans m tl c k0 !! j = Some sp
    /\ span_op sp = Some d
    /\ (is_equal d = false ->
        span_index sp = Some (k0 + count_changes (firstn j tl))%nat).
Proof.
  revert c k0 j. induction tl as [|[op text] tl IH]; intros c k0 j Hj Hm;
    [discriminate Hj|].
  simpl render_spans.
  destruct (Z.gtb_spec (Z.of_nat c) m) as [Hgt|_]; [lia|].
  destruct j as [|j].
  - injection Hj as <-. destruct op; eexists; (split; [reflexivity|]);
      (split; [reflexivity|]); intros He; try discriminate He;
      simpl; unfold count_changes; simpl; f_equal; lia.
  - simpl in Hj. rewrite firstn_cons, count_changes_cons.
    destruct op; simpl.
    + destruct (IH (S c) (S k0) j Hj) as [sp [H1 [H2 H3]]]; [lia|].
      exists sp. split; [exact H1|]. split; [exact H2|].
      intros He. rewrite (H3 He). f_equal. lia.
    + destruct (IH (S c) (S k0) j Hj) as [sp [H1 [H2 H3]]]; [lia|].
      exists sp. split; [exact H1|]. split; [exact H2|].
      intros He. rewrite (H3 He). f_equal. lia.
    + destruct (IH (S c) k0 j Hj) as [sp [H1 [H2 H3]]]; [lia|].
      exists sp. split; [exact H1|]. split; [exact H2|].
      intros He. rewrite (H3 He). f_equal.
Qed.

Lemma change_positions_lookup (hd tl : list Diff) (k i : nat) :
  List.filter
    (fun i => match (hd ++ tl) !! i with
              | Some d => negb (is_equal d)
              | None => false
              end) (seq (length hd) (length tl)) !! k = Some i ->
  exists (j : nat) (d : Diff),
    i = (length hd + j)%nat
    /\ tl !! j = Some d
    /\ is_equal d = false
    /\ count_changes (firstn j tl) = k.
Proof.
  revert hd k. induction tl as [|d tl IH]; intros hd k Hk;
    [discriminate Hk|].
  simpl seq in Hk. simpl List.filter in Hk.
  rewrite list_lookup_middle in Hk by reflexivity.
  specialize (IH (hd ++ [d])).
  rewrite <- app_assoc, length_app in IH. simpl in IH.
  rewrite Nat.add_1_r in IH.
  destruct (is_equal d) eqn:He; simpl in Hk.
  - destruct (IH k Hk) as [j [d' [Hi [Hj [He' Hc]]]]].
    exists (S j), d'. split; [lia|]. split; [exact Hj|]. split; [exact He'|].
    rewrite firstn_cons, count_changes_cons, He. exact Hc.
  - destruct k as [|k].
    + injection Hk as <-. exists 0%nat, d.
      split; [lia|]. split; [reflexivity|]. split; [exact He|]. reflexivity.
    + simpl in Hk. destruct (IH k Hk) as [j [d' [Hi [Hj [He' Hc]]]]].
      exists (S j), d'. split; [lia|]. split; [exact Hj|]. split; [exact He'|].
      rewrite firstn_cons, count_changes_cons, He. simpl. now rewrite Hc.
Qed.

(** X15. The two numberings of the changes agree: entry [k] of
    [getChangeIndices] is the position of the operation that
    [renderDiffToHtml] renders as region [k], as long as that position is
    within [maxChunks]. *)
Theorem region_index_is_change_position (ds : list Diff) (m : Z) (k i : nat) :
  getChangeIndices ds !! k = Some i ->
  (Z.of_nat i <= m)%Z ->
  exists sp : Span,
    render_spans m ds 0 0 !! i = Some sp
    /\ span_index sp = Some k
    /\ span_op sp = ds !! i.
Proof.
  unfold getChangeIndices. rewrite getChangeIndices_fold. simpl app.
  intros Hk Hm.
  destruct (change_positions_lookup [] ds k i Hk)
    as [j [d [Hi [Hj [He Hc]]]]].
  simpl in Hi. subst i.
  destruct (render_spans_lookup m ds 0 0 j d Hj) as [sp [H1 [H2 H3]]];
    [simpl; lia|].
  exists sp. split; [exact H1|]. split.
  - rewrite (H3 He). simpl. now rewrite Hc.
  - now rewrite H2, Hj.
Qed.

Lemma region_index_is_change_position_witness :
  exists sp : Span,
    render_spans 5000
      [(DIFF_EQUAL, "x"); (DIFF_DELETE, "a"); (DIFF_EQUAL, "y");
       (DIFF_INSERT, "b")] 0 0 !! 3%nat = Some sp
    /\ span_index sp = Some 1%nat
    /\ span_op sp
       = [(DIFF_EQUAL, "x"); (DIFF_DELETE, "a"); (DIFF_EQUAL, "y");
          (DIFF_INSERT, "b")] !! 3%nat.
Proof.
  apply (region_index_is_change_position
           [(DIFF_EQUAL, "x"); (DIFF_DELETE, "a"); (DIFF_EQUAL, "y");
            (DIFF_INSERT, "b")] 5000 1 3).
  - reflexivity.
  - lia.
Defined.

(** ** The routes over the stored documents *)

Lemma strict_neq_false (a b : option string) :
  strict_neq a b = false -> a = b.
Proof.
  destruct a as [x|], b as [y|]; simpl; try discriminate; auto.
  intros H. apply negb_false_iff, String.eqb_eq in H. now subst.
Qed.

(** X19. [GET /api/diff/[id]] hands out the texts of a document only when it is
    the stored document of that short id, it has not expired, and, for a
    private one, the request carries its access token. The view count it
    reports is the stored one plus one. *)
Theorem GET_serves_only_permitted (select_ok update_ok : bool)
    (table : list DiffDocument.t) (now : Z) (id : string)
    (token : option string) (body : DiffBody.t) :
  fst (GET select_ok update_ok table now id token) = JsonDiff body ->
  exists document : DiffDocument.t,
    In document table
    /\ DiffDocument.shortId document = id
    /\ (forall e : Z, DiffDocument.expiresAt document = Some e -> (now <= e)%Z)
    /\ (DiffDocument.isPrivate document = true ->
        DiffDocument.accessToken document = token)
    /\ DiffBody.textA body = DiffDocument.textA document
    /\ DiffBody.textB body = DiffDocument.textB document
    /\ DiffBody.viewCount body = (DiffDocument.viewCount document + 1)%Z.
Proof.
  unfold GET. destruct select_ok; simpl; [|discriminate].
  destruct (List.find (has_shortId id) table) as [document|] eqn:Hfind;
    [|discriminate].
  apply find_some in Hfind. destruct Hfind as [Hin Hid].
  destruct (expired now document) eqn:Hexp; [discriminate|].
  destruct (DiffDocument.isPrivate document
            && strict_neq (DiffDocument.accessToken document) token) eqn:Hacc;
    [discriminate|].
  destruct update_ok; simpl; [|discriminate].
  intros H. injection H as <-.
  exists document. split; [exact Hin|].
  split; [now apply String.eqb_eq|].
  split.
  - intros e He. unfold expired in Hexp. rewrite He in Hexp.
    apply Z.ltb_ge in Hexp. exact Hexp.
  - split; [|repeat split].
    intros Hp. rewrite Hp in Hacc. simpl in Hacc.
    now apply strict_neq_false.
Qed.

Lemma GET_serves_only_permitted_witness :
  exists document : DiffDocument.t,
    In document
      [ {| DiffDocument.id := "1"; DiffDocument.shortId := "abc";
           DiffDocument.textA := "hello world";
           DiffDocument.textB := "hello earth";
           DiffDocument.textASize := 11; DiffDocument.textBSize := 11;
           DiffDocument.expiresAt := Some 2000%Z;
           DiffDocument.isPrivate := true;
           DiffDocument.accessToken := Some "secret";
           DiffDocument.createdAt := 0; DiffDocument.viewCount := 4 |} ]
    /\ DiffDocument.shortId document = "abc"
    /\ (forall e : Z, DiffDocument.expiresAt document = Some e -> (1000 <= e)%Z)
    /\ (DiffDocument.isPrivate document = true ->
        DiffDocument.accessToken document = Some "secret")
    /\ "hello world" = DiffDocument.textA document
    /\ "hello earth" = DiffDocument.textB document
    /\ 5%Z = (DiffDocument.viewCount document + 1)%Z.
Proof.
  apply (GET_serves_only_permitted true true
           [ {| DiffDocument.id := "1"; DiffDocument.shortId := "abc";
                DiffDocument.textA := "hello world";
                DiffDocument.textB := "hello earth";
                DiffDocument.textASize := 11; DiffDocument.textBSize := 11;
                DiffDocument.expiresAt := Some 2000%Z;
                DiffDocument.isPrivate := true;
                DiffDocument.accessToken := Some "secret";
                DiffDocument.createdAt := 0; DiffDocument.viewCount := 4 |} ]
           1000 "abc" (Some "secret")
           {| DiffBody.id := "1"; DiffBody.shortId := "abc";
              DiffBody.textA := "hello world";
              DiffBody.textB := "hello earth";
              DiffBody.textASize := 11; DiffBody.textBSize := 11;
              DiffBody.createdAt := 0; DiffBody.expiresAt := Some 2000%Z;
              DiffBody.viewCount := 5 |}).
  reflexivity.
Defined.

Lemma has_shortId_count_view (id : string) (d : DiffDocument.t) :
  has_shortId id (count_view d) = has_shortId id d.
Proof. reflexivity. Qed.

Lemma find_count_view (id : string) (table : list DiffDocument.t) :
  List.find (has_shortId id)
    (map (fun d => if has_shortId id d then count_view d else d) table)
  = option_map count_view (List.find (has_shortId id) table).
Proof.
  induction table as [|d table IH]; [reflexivity|].
  simpl. destruct (has_shortId id d) eqn:Hd.
  - now rewrite has_shortId_count_view, Hd.
  - now rewrite Hd.
Qed.

(** X20. A request that is refused (not found, expired, access denied, or a
    failed query) leaves the table as it was. A request that is served
    changes the view count and nothing else: the rows of other short ids
    are untouched, and the served row now stores the count the answer
    reports. *)
Theorem GET_counts_the_view (select_ok update_ok : bool)
    (table : list DiffDocument.t) (now : Z) (id : string)
    (token : option string) :
  (forall (status : Z) (error : string),
     fst (GET select_ok update_ok table now id token) = JsonError status error ->
     snd (GET select_ok update_ok table now id token) = table)
  /\ (forall body : DiffBody.t,
        fst (GET select_ok update_ok table now id token) = JsonDiff body ->
        Forall2 (fun d d' => d' = if has_shortId id d then count_view d else d)
          table (snd (GET select_ok update_ok table now id token))
        /\ exists d' : DiffDocument.t,
             List.find (has_shortId id)
               (snd (GET select_ok update_ok table now id token)) = Some d'
             /\ DiffDocument.viewCount d' = DiffBody.viewCount body
             /\ DiffDocument.textA d' = DiffBody.textA body
             /\ DiffDocument.textB d' = DiffBody.textB body).
Proof.
  unfold GET. destruct select_ok; simpl; [|split; [reflexivity | discriminate]].
  destruct (List.find (has_shortId id) table) as [document|] eqn:Hfind;
    [|split; [reflexivity | discriminate]].
  destruct (expired now document); [split; [reflexivity | discriminate]|].
  destruct (DiffDocument.isPrivate document
            && strict_neq (DiffDocument.accessToken document) token);
    [split; [reflexivity | discriminate]|].
  destruct update_ok; simpl; [|split; [reflexivity | discriminate]].
  split; [discriminate|].
  intros body H. injection H as <-. split.
  - clear Hfind. induction table as [|d table IH]; constructor; auto.
  - exists (count_view document). rewrite find_count_view, Hfind.
    repeat split.
Qed.

Lemma find_filter {A : Type} (p q : A -> bool) (l : list A) :
  (forall d : A, List.find p l = Some d -> q d = true) ->
  List.find p (List.filter q l) = List.find p l.
Proof.
  induction l as [|x l IH]; intros H; [reflexivity|].
  simpl in *. destruct (p x) eqn:Hp.
  - rewrite (H x eq_refl). simpl. now rewrite Hp.
  - destruct (q x); simpl; rewrite ?Hp; apply IH; exact H.
Qed.

(** X21. The cleanup deletes exactly the rows that have expired, and reports
    their number. It agrees with the read route on what has expired: right
    after it no request is answered "expired", and every request that was
    not answered "expired" before gets the answer it got before. *)
Theorem cleanup_agrees_with_GET (table : list DiffDocument.t) (now : Z) :
  (fst (cleanup table now) + length (snd (cleanup table now)))%nat
  = length table
  /\ (forall d : DiffDocument.t,
        In d (snd (cleanup table now))
        <-> In d table /\ expired now d = false)
  /\ (forall (select_ok update_ok : bool) (id : string)
             (token : option string) (error : string),
        fst (GET select_ok update_ok (snd (cleanup table now)) now id token)
        <> JsonError 410 error)
  /\ (forall (select_ok update_ok : bool) (id : string)
             (token : option string),
        (forall error : string,
           fst (GET select_ok update_ok table now id token)
           <> JsonError 410 error) ->
        fst (GET select_ok update_ok (snd (cleanup table now)) now id token)
        = fst (GET select_ok update_ok table now id token)).
Proof.
  unfold cleanup. simpl fst. simpl snd.
  split; [|split; [|split]].
  - induction table as [|d table IH]; [reflexivity|].
    simpl. destruct (expired now d); simpl; lia.
  - intros d. rewrite filter_In, negb_true_iff. reflexivity.
  - intros select_ok update_ok id token error. unfold GET.
    destruct select_ok; simpl; [|discriminate].
    destruct (List.find (has_shortId id)
                (List.filter (fun d => negb (expired now d)) table))
      as [document|] eqn:Hfind; [|discriminate].
    apply find_some in Hfind. destruct Hfind as [Hin _].
    apply filter_In in Hin. destruct Hin as [_ Hexp].
    apply negb_true_iff in Hexp. rewrite Hexp.
    destruct (DiffDocument.isPrivate document
              && strict_neq (DiffDocument.accessToken document) token);
      [discriminate|].
    destruct update_ok; discriminate.
  - intros select_ok update_ok id token H. unfold GET in *.
    destruct select_ok; simpl in *; [|reflexivity].
    rewrite find_filter.
    + destruct (List.find (has_shortId id) table) as [document|];
        [|reflexivity].
      destruct (expired now document); [exfalso; eapply H; reflexivity|].
      destruct (DiffDocument.isPrivate document
                && strict_neq (DiffDocument.accessToken document) token);
        [reflexivity|].
      destruct update_ok; reflexivity.
    + intros d Hd. rewrite Hd in H.
      destruct (expired now d); [exfalso; eapply H; reflexivity | reflexivity].
Qed.

(** ** The library's timeout across calls *)





(** ** From [computeDiff] to the page *)

(** X24. The number of regions a page shows for a computed diff is never more
    than the [changeCount] of its statistics, and is that number whenever
    the rendering was not cut short; for identical texts it is 0. *)
Theorem page_region_count (L : diff_match_patch)
    (this : OptimizedDiffComputer) (now0 now1 : float) (a b : string)
    (options : DiffOptions) (cursor : Z) :
  (diffChunkCount
     {| diffResult := Some (fst (computeDiff L this now0 now1 a b options));
        currentDiffIndex := cursor |}
   <= Z.of_nat
        (changeCount (stats (fst (computeDiff L this now0 now1 a b options)))))%Z
  /\ (RenderedDiff.truncated
        (renderedDiff
           {| diffResult := Some (fst (computeDiff L this now0 now1 a b options));
              currentDiffIndex := cursor |}) = false ->
      diffChunkCount
        {| diffResult := Some (fst (computeDiff L this now0 now1 a b options));
           currentDiffIndex := cursor |}
      = Z.of_nat
          (changeCount (stats (fst (computeDiff L this now0 now1 a b options)))))
  /\ (a = b ->
      diffChunkCount
        {| diffResult := Some (fst (computeDiff L this now0 now1 a b options));
           currentDiffIndex := cursor |} = 0%Z).
Proof.
  unfold diffChunkCount, renderedDiff. simpl diffResult. cbv zeta.
  simpl currentDiffIndex.
  set (r := fst (computeDiff L this now0 now1 a b options)).
  assert (Hs : changeCount (stats r) = count_changes (diffs r)).
  { unfold r. destruct (String.eqb_spec a b) as [<-|Hne].
    - rewrite computeDiff_same. reflexivity.
    - rewrite computeDiff_distinct by assumption. cbv zeta. simpl.
      destruct (computeStats_fold
                  (diffs (fst (computeDiff L this now0 now1 a b options)))
                  {| totalSize := 0; changeCount := 0;
                     insertions := 0; deletions := 0 |}) as [_ [_ Hc]].
      rewrite computeDiff_distinct in Hc by assumption. exact Hc. }
  rewrite Hs, renderDiffToHtml_changeCount, renderDiffToHtml_truncated.
  unfold rendered_prefix. simpl maxChunks. simpl default.
  assert (Hle : (count_changes (firstn (Z.to_nat (5000 + 1)) (diffs r))
                 <= count_changes (diffs r))%nat).
  { rewrite <- (firstn_skipn (Z.to_nat (5000 + 1)) (diffs r)) at 2.
    unfold count_changes. rewrite List.filter_app, length_app. lia. }
  split; [lia|]. split.
  - intros H. apply Nat.ltb_ge in H. now rewrite firstn_all2 by assumption.
  - intros <-. unfold r. rewrite computeDiff_same. reflexivity.
Qed.
